(** * fitbit-agent: the tool-call protocol parser, the flexible meal
      normaliser and the conversation loop, embedded and verified.

    The Go sources are embedded shallowly.  A Go [string] is a sequence of
    bytes ([list ascii]); positions are [nat]; counters that the code
    decrements are [Z]; [float64] is IEEE 754 binary64 as given by
    [SpecFloat] (precision 53, emax 1024).  Functions of Go's standard
    library that the code calls ([strings.TrimSpace], [regexp], [json.Valid],
    [strconv.ParseFloat], ...) are modelled next to the code that uses
    them, each with a note on the extent of the model. *)

From Stdlib Require Import Ascii String DecimalString SpecFloat.
From Stdlib Require Import ZArith Lia Bool Arith List.
Import ListNotations.



(* ================================================================== *)
(** ** Go strings and the [strings] package *)
(* ================================================================== *)

Module GoString.

(** A Go string: an immutable sequence of bytes. *)
Definition gostring : Type := list ascii.

(** String literals of the sources. *)
Definition str (s : string) : gostring := list_ascii_of_string s.

Definition code (c : ascii) : nat := nat_of_ascii c.

(** The double quote and the backslash, by their codes. *)
Definition dquote : ascii := ascii_of_nat 34.
Definition backslash : ascii := ascii_of_nat 92.

Fixpoint eqs (a b : gostring) : bool :=
  match a, b with
  | [], [] => true
  | x :: a', y :: b' => Ascii.eqb x y && eqs a' b'
  | _, _ => false
  end.

(** [s[a:b]] and [s[a:]] for [a <= b <= len(s)]. *)
Definition slice (s : gostring) (a b : nat) : gostring := firstn (b - a) (skipn a s).
Definition sliceFrom (s : gostring) (a : nat) : gostring := skipn a s.

(** [strings.HasPrefix], [strings.HasSuffix], [strings.TrimPrefix],
    [strings.TrimSuffix], [strings.Contains]. *)
Fixpoint HasPrefix (s prefix : gostring) : bool :=
  match prefix, s with
  | [], _ => true
  | p :: prefix', c :: s' => Ascii.eqb c p && HasPrefix s' prefix'
  | _ :: _, [] => false
  end.

Definition HasSuffix (s suffix : gostring) : bool := HasPrefix (rev s) (rev suffix).

Definition TrimPrefix (s prefix : gostring) : gostring :=
  if HasPrefix s prefix then skipn (length prefix) s else s.

Definition TrimSuffix (s suffix : gostring) : gostring :=
  if HasSuffix s suffix then firstn (length s - length suffix) s else s.

Fixpoint Contains (s substr : gostring) : bool :=
  HasPrefix s substr ||
  match s with
  | [] => false
  | _ :: s' => Contains s' substr
  end.

(** The six ASCII bytes of [strings.TrimSpace]'s fast path:
    tab, line feed, vertical tab, form feed, carriage return, space. *)
Definition asciiSpace (c : ascii) : bool :=
  let n := code c in ((9 <=? n) && (n <=? 13)) || (n =? 32).

(** Width in bytes of a white-space rune at the head of [s], 0 when there is
    none.  Beyond ASCII, [unicode.IsSpace] holds of U+0085, U+00A0, U+1680,
    U+2000..U+200A, U+2028, U+2029, U+202F, U+205F and U+3000; the bytes
    below are their UTF-8 encodings. *)
Definition spaceWidth (s : gostring) : nat :=
  match s with
  | [] => 0
  | c :: r =>
    if asciiSpace c then 1 else
    match r with
    | d :: r' =>
      if (code c =? 194) && ((code d =? 133) || (code d =? 160)) then 2 else
      match r' with
      | e :: _ =>
        if (code c =? 225) && (code d =? 154) && (code e =? 128) then 3 else
        if (code c =? 226) && (code d =? 128) &&
           (((128 <=? code e) && (code e <=? 138)) ||
            (code e =? 168) || (code e =? 169) || (code e =? 175)) then 3 else
        if (code c =? 226) && (code d =? 129) && (code e =? 159) then 3 else
        if (code c =? 227) && (code d =? 128) && (code e =? 128) then 3 else 0
      | [] => 0
      end
    | [] => 0
    end
  end.

(** The same, read from the end: [r] is the string reversed. *)
Definition spaceWidthRev (r : gostring) : nat :=
  match r with
  | [] => 0
  | c :: _ =>
    if asciiSpace c then 1 else
    match r with
    | d :: c' :: _ =>
      if spaceWidth [c'; d] =? 2 then 2 else
      match r with
      | e :: d' :: c'' :: _ => if spaceWidth [c''; d'; e] =? 3 then 3 else 0
      | _ => 0
      end
    | _ => 0
    end
  end.

Fixpoint trimWith (width : gostring -> nat) (fuel : nat) (s : gostring) : gostring :=
  match fuel with
  | 0 => s
  | S fuel' =>
    match width s with
    | 0 => s
    | w => trimWith width fuel' (skipn w s)
    end
  end.

Definition TrimLeftSpace (s : gostring) : gostring := trimWith spaceWidth (length s) s.
Definition TrimRightSpace (s : gostring) : gostring :=
  rev (trimWith spaceWidthRev (length s) (rev s)).

(** [strings.TrimSpace]: leading white space is removed, then trailing. *)
Definition TrimSpace (s : gostring) : gostring := TrimRightSpace (TrimLeftSpace s).

(** [strings.ToLower] on the bytes [A]..[Z]; a byte outside ASCII is kept
    (Go maps the runes of a non-ASCII string through [unicode.ToLower]; the
    model agrees with Go on every ASCII string). *)
Definition lowerByte (c : ascii) : ascii :=
  let n := code c in
  if (65 <=? n) && (n <=? 90) then ascii_of_nat (n + 32) else c.

Definition ToLower (s : gostring) : gostring := map lowerByte s.

(** [%d] of [fmt.Sprintf]. *)
Definition itoa (z : Z) : gostring := str (NilZero.string_of_int (Z.to_int z)).

Definition isDigit (c : ascii) : bool := (48 <=? code c) && (code c <=? 57).

(** Longest prefix whose bytes satisfy [p], and what follows it. *)
Fixpoint span (p : ascii -> bool) (s : gostring) : gostring * gostring :=
  match s with
  | [] => ([], [])
  | c :: s' =>
    if p c then let (a, b) := span p s' in (c :: a, b) else ([], s)
  end.

End GoString.
Import GoString.

(* ================================================================== *)
(** ** package llm: the tool-call protocol parser *)
(* ================================================================== *)

Module LLM.

(** *** The primary grammar [TOOL_CALL:\s*(\w+)\s*\(]

    RE2's [\s] is [[\t\n\f\r ]] and [\w] is [[0-9A-Za-z_]].  The classes are
    disjoint and neither holds of an opening parenthesis, so the greedy
    match at a position is the only one and no backtracking is needed. *)
Definition reSpace (c : ascii) : bool :=
  let n := code c in (n =? 9) || (n =? 10) || (n =? 12) || (n =? 13) || (n =? 32).

Definition reWord (c : ascii) : bool :=
  let n := code c in
  ((48 <=? n) && (n <=? 57)) || ((65 <=? n) && (n <=? 90)) ||
  ((97 <=? n) && (n <=? 122)) || (n =? 95).

(** One entry of [FindAllStringSubmatchIndex]: the bounds of the whole match
    ([match[0]], [match[1]]) and of group 1 ([match[2]], [match[3]]). *)
Record submatch : Type := { m0 : nat; m1 : nat; m2 : nat; m3 : nat }.

(** The match that starts at the head of [s], with offsets from there:
    (start of the name, end of the name, end of the match). *)
Definition matchPrimaryHere (s : gostring) : option (nat * nat * nat) :=
  let lit := str "TOOL_CALL:" in
  if HasPrefix s lit then
    let (sp1, r1) := span reSpace (skipn (length lit) s) in
    let (name, r2) := span reWord r1 in
    let (sp2, r3) := span reSpace r2 in
    match name, r3 with
    | _ :: _, c :: _ =>
      if Ascii.eqb c "(" then
        let a := length lit + length sp1 in
        let b := a + length name in
        Some (a, b, b + length sp2 + 1)
      else None
    | _, _ => None
    end
  else None.

(** Successive leftmost matches, each search resuming where the previous
    match ended.  [s] is the text from position [pos] on. *)
Fixpoint findAllPrimary (fuel pos : nat) (s : gostring) : list submatch :=
  match fuel with
  | 0 => []
  | S fuel' =>
    match s with
    | [] => []
    | _ :: s' =>
      match matchPrimaryHere s with
      | Some (a, b, e) =>
        {| m0 := pos; m1 := pos + e; m2 := pos + a; m3 := pos + b |}
          :: findAllPrimary fuel' (pos + e) (skipn e s)
      | None => findAllPrimary fuel' (pos + 1) s'
      end
    end
  end.

Definition FindAllPrimary (response : gostring) : list submatch :=
  findAllPrimary (length response) 0 response.

(** *** extractJSONManually *)

(** The loop of [extractJSONManually], from position [pos] on; [rest] is
    [text[pos:]].  Every iteration advances [pos] by one, so the loop is a
    left-to-right pass over [rest].  It yields the position of the
    closing parenthesis at which [parenCount] reaches zero, if any. *)
Fixpoint scanClose (rest : gostring) (pos : nat) (parenCount : Z)
         (inString escaped : bool) : option nat :=
  match rest with
  | [] => None
  | char :: rest' =>
    if escaped then scanClose rest' (pos + 1) parenCount inString false
    else if Ascii.eqb char backslash then scanClose rest' (pos + 1) parenCount inString true
    else if Ascii.eqb char dquote then scanClose rest' (pos + 1) parenCount (negb inString) false
    else if negb inString then
      if Ascii.eqb char "(" then scanClose rest' (pos + 1) (parenCount + 1) inString false
      else if Ascii.eqb char ")" then
        if (parenCount - 1 =? 0)%Z then Some pos
        else scanClose rest' (pos + 1) (parenCount - 1) inString false
      else scanClose rest' (pos + 1) parenCount inString false
    else scanClose rest' (pos + 1) parenCount inString false
  end.

Definition extractJSONManually (text : gostring) (startPos : nat) : gostring :=
  match nth_error text startPos with
  | Some c =>
    if Ascii.eqb c "(" then
      match scanClose (sliceFrom text (startPos + 1)) (startPos + 1) 1 false false with
      | Some pos => TrimSpace (slice text (startPos + 1) pos)
      | None => TrimSpace (sliceFrom text (startPos + 1))
      end
    else []
  | None => []
  end.

(** *** fixCommonJSONIssues *)
Definition fixCommonJSONIssues (jsonStr : gostring) : gostring :=
  let jsonStr := TrimSpace jsonStr in
  if HasSuffix jsonStr (str ";") then TrimSpace (TrimSuffix jsonStr (str ";"))
  else jsonStr.

(** *** json.Valid

    The grammar of [encoding/json]'s scanner: one value between optional
    white space (space, tab, carriage return, line feed); a string may hold
    any byte from 0x20 up except the quote and the backslash, and an
    escape: a backslash before a quote, a backslash, a slash, one of
    b f n r t, or u and four hexadecimal digits; nesting deeper than 10000 is
    refused ([maxNestingDepth]). *)
Definition jsonSpace (c : ascii) : bool :=
  let n := code c in (n =? 32) || (n =? 9) || (n =? 13) || (n =? 10).

Definition skipWs (s : gostring) : gostring := snd (span jsonSpace s).

Definition isHex (c : ascii) : bool :=
  let n := code c in
  ((48 <=? n) && (n <=? 57)) || ((97 <=? n) && (n <=? 102)) || ((65 <=? n) && (n <=? 70)).

Definition simpleEscape (c : ascii) : bool :=
  existsb (Ascii.eqb c) (dquote :: backslash :: str "/bfnrt").

(** After the opening quote: what follows the closing quote. *)
Fixpoint jsonStringBody (s : gostring) : option gostring :=
  match s with
  | [] => None
  | c :: r =>
    if Ascii.eqb c dquote then Some r
    else if Ascii.eqb c backslash then
      match r with
      | e :: r' =>
        if simpleEscape e then jsonStringBody r'
        else if Ascii.eqb e "u" then
          match r' with
          | h1 :: h2 :: h3 :: h4 :: r'' =>
            if isHex h1 && isHex h2 && isHex h3 && isHex h4 then jsonStringBody r'' else None
          | _ => None
          end
        else None
      | [] => None
      end
    else if code c <? 32 then None
    else jsonStringBody r
  end.

(** One or more digits. *)
Definition digits1 (s : gostring) : option gostring :=
  match span isDigit s with
  | (_ :: _, r) => Some r
  | ([], _) => None
  end.

(** A number: an optional minus; a zero, or a digit from 1 to 9 and any
    digits; optionally a dot and one or more digits; optionally e or E, a
    sign and one or more digits. *)
Definition jsonNumber (s : gostring) : option gostring :=
  let s1 := match s with c :: r => if Ascii.eqb c "-" then r else s | [] => s end in
  let afterInt :=
    match s1 with
    | c :: r =>
      if Ascii.eqb c "0" then Some r
      else if isDigit c then Some (snd (span isDigit r))
      else None
    | [] => None
    end in
  match afterInt with
  | None => None
  | Some s2 =>
    let afterFrac :=
      match s2 with
      | c :: r => if Ascii.eqb c "." then digits1 r else Some s2
      | [] => Some s2
      end in
    match afterFrac with
    | None => None
    | Some s3 =>
      match s3 with
      | c :: r =>
        if Ascii.eqb c "e" || Ascii.eqb c "E" then
          match r with
          | d :: r' => if Ascii.eqb d "+" || Ascii.eqb d "-" then digits1 r' else digits1 r
          | [] => None
          end
        else Some s3
      | [] => Some s3
      end
    end
  end.

Definition jsonLiteral (lit : string) (s : gostring) : option gostring :=
  if HasPrefix s (str lit) then Some (skipn (length (str lit)) s) else None.

Definition maxNestingDepth : nat := Z.to_nat 10000.

Inductive jsonMode : Type :=
| JValue        (**r at the first byte of a value *)
| JMember       (**r at the first byte of an object key *)
| JElement.     (**r at the first byte of an array element *)

Fixpoint jsonParse (fuel : nat) (mode : jsonMode) (depth : nat) (s : gostring)
  : option gostring :=
  match fuel with
  | 0 => None
  | S fuel' =>
    match mode with
    | JValue =>
      match s with
      | [] => None
      | c :: r =>
        if Ascii.eqb c "{" then
          if maxNestingDepth <? depth + 1 then None else
          match skipWs r with
          | d :: r' => if Ascii.eqb d "}" then Some r' else jsonParse fuel' JMember (depth + 1) (d :: r')
          | [] => None
          end
        else if Ascii.eqb c "[" then
          if maxNestingDepth <? depth + 1 then None else
          match skipWs r with
          | d :: r' => if Ascii.eqb d "]" then Some r' else jsonParse fuel' JElement (depth + 1) (d :: r')
          | [] => None
          end
        else if Ascii.eqb c dquote then jsonStringBody r
        else if Ascii.eqb c "t" then jsonLiteral "true" s
        else if Ascii.eqb c "f" then jsonLiteral "false" s
        else if Ascii.eqb c "n" then jsonLiteral "null" s
        else jsonNumber s
      end
    | JMember =>
      match s with
      | c :: r =>
        if Ascii.eqb c dquote then
          match jsonStringBody r with
          | Some r1 =>
            match skipWs r1 with
            | colon :: r2 =>
              if Ascii.eqb colon ":" then
                match jsonParse fuel' JValue depth (skipWs r2) with
                | Some r3 =>
                  match skipWs r3 with
                  | e :: r4 =>
                    if Ascii.eqb e "}" then Some r4
                    else if Ascii.eqb e "," then jsonParse fuel' JMember depth (skipWs r4)
                    else None
                  | [] => None
                  end
                | None => None
                end
              else None
            | [] => None
            end
          | None => None
          end
        else None
      | [] => None
      end
    | JElement =>
      match jsonParse fuel' JValue depth s with
      | Some r1 =>
        match skipWs r1 with
        | e :: r2 =>
          if Ascii.eqb e "]" then Some r2
          else if Ascii.eqb e "," then jsonParse fuel' JElement depth (skipWs r2)
          else None
        | [] => None
        end
      | None => None
      end
    end
  end.

(** [json.Valid]. A call either consumes a byte or hands the same text to
    a value, so twice the length (and two) is fuel enough. *)
Definition Valid (data : gostring) : bool :=
  match jsonParse (2 * length data + 2) JValue 0 (skipWs data) with
  | Some rest => eqs (skipWs rest) []
  | None => false
  end.

(** *** The prose fallback [Call\s+(\w+)\s+with\s+({[^}]*})]
    Offsets, from the head of [s], of group 1, of group 2 and of the end. *)
Definition spaces1 (s : gostring) : option (nat * gostring) :=
  match span reSpace s with
  | ((_ :: _) as sp, r) => Some (length sp, r)
  | ([], _) => None
  end.

Definition matchCallWithHere (s : gostring) : option (nat * nat * nat * nat) :=
  if HasPrefix s (str "Call") then
    match spaces1 (skipn 4 s) with
    | Some (n1, r1) =>
      match span reWord r1 with
      | ((_ :: _) as name, r2) =>
        match spaces1 r2 with
        | Some (n2, r3) =>
          if HasPrefix r3 (str "with") then
            match spaces1 (skipn 4 r3) with
            | Some (n3, r4) =>
              match r4 with
              | c :: r5 =>
                if Ascii.eqb c "{" then
                  let (body, r6) := span (fun x => negb (Ascii.eqb x "}")) r5 in
                  match r6 with
                  | _ :: _ =>
                    let a := 4 + n1 in
                    let b := a + length name in
                    let g := b + n2 + 4 + n3 in
                    Some (a, b, g, g + 1 + length body + 1)
                  | [] => None
                  end
                else None
              | [] => None
              end
            | None => None
            end
          else None
        | None => None
        end
      | ([], _) => None
      end
    | None => None
    end
  else None.

(** [FindAllStringSubmatch]: the texts of group 1 and group 2 of each match. *)
Fixpoint findAllCallWith (fuel : nat) (s : gostring) : list (gostring * gostring) :=
  match fuel with
  | 0 => []
  | S fuel' =>
    match s with
    | [] => []
    | _ :: s' =>
      match matchCallWithHere s with
      | Some (a, b, g, e) => (slice s a b, slice s g e) :: findAllCallWith fuel' (skipn e s)
      | None => findAllCallWith fuel' s'
      end
    end
  end.

Definition FindAllCallWith (response : gostring) : list (gostring * gostring) :=
  findAllCallWith (length response) response.

(** *** agent.ToolCall and ParseToolCalls *)
Record ToolCall : Type := {
  ID : gostring;
  Name : gostring;
  Function : gostring;
  Input : gostring   (**r json.RawMessage *)
}.

Section ParseToolCalls.

(** The [%q] verb of [fmt] ([strconv.Quote]): a double-quoted Go string
    literal.  It belongs to Go's library and depends on Unicode tables, so
    the parser is stated over any rendering of it. *)
Variable quoteQ : gostring -> gostring.

(** [fmt.Sprintf] of the format [{ input : %q }], the key in quotes. *)
Definition wrapInput (s : gostring) : gostring :=
  str "{" ++ [dquote] ++ str "input" ++ [dquote] ++ str ": " ++ quoteQ s ++ str "}".

Definition rawInput (content : gostring) : gostring :=
  if Valid content then content else wrapInput content.

Definition mkToolCall (i : nat) (toolName input : gostring) : ToolCall :=
  {| ID := str "call_" ++ itoa (Z.of_nat i);
     Name := toolName; Function := toolName; Input := input |}.

(** The [i]-th iteration of the loop over the primary matches. *)
Definition primaryStep (response : gostring) (toolCalls : list ToolCall)
           (im : nat * submatch) : list ToolCall :=
  let (i, m) := im in
  let toolName := slice response (m2 m) (m3 m) in
  let openParenPos := m1 m - 1 in
  let jsonContent := extractJSONManually response openParenPos in
  let jsonContent := fixCommonJSONIssues jsonContent in
  if eqs jsonContent [] then toolCalls
  else toolCalls ++ [mkToolCall i toolName (rawInput jsonContent)].

Definition fallbackStep (toolCalls : list ToolCall)
           (im : nat * (gostring * gostring)) : list ToolCall :=
  let (i, m) := im in
  let (toolName, inputStr) := m in
  toolCalls ++ [mkToolCall i toolName (rawInput inputStr)].

(** [for i, match := range matches]. *)
Definition enumerate {A : Type} (l : list A) : list (nat * A) :=
  combine (seq 0 (length l)) l.

Definition primaryCalls (response : gostring) : list ToolCall :=
  fold_left (primaryStep response) (enumerate (FindAllPrimary response)) [].

Definition ParseToolCalls (response : gostring) : list ToolCall :=
  let toolCalls := primaryCalls response in
  if length toolCalls =? 0 then
    fold_left fallbackStep (enumerate (FindAllCallWith response)) []
  else toolCalls.

End ParseToolCalls.

(** [strconv.Quote] on a string of ASCII bytes: the quote and the
    backslash are escaped, a printable byte is copied, the bytes 7 to 13
    have the escapes a b t n v f r, and any other byte is written as x and
    two hexadecimal digits.  (Go writes a byte from 0x80 up the same way when
    it belongs to no valid UTF-8 encoding; a valid rune it copies or escapes
    according to [unicode.IsPrint], which is not modelled.) *)
Definition hexDigit (n : nat) : ascii := nth n (str "0123456789abcdef") "0"%char.

Definition quoteByte (c : ascii) : gostring :=
  let n := code c in
  if Ascii.eqb c dquote || Ascii.eqb c backslash then [backslash; c]
  else if (32 <=? n) && (n <=? 126) then [c]
  else if (7 <=? n) && (n <=? 13) then [backslash; nth (n - 7) (str "abtnvfr") "a"%char]
  else backslash :: "x"%char :: [hexDigit (n / 16); hexDigit (n mod 16)].

Definition quoteASCII (s : gostring) : gostring :=
  dquote :: flat_map quoteByte s ++ [dquote].

End LLM.
Import LLM.

(* ================================================================== *)
(** ** The balanced scan as the specification words it *)
(* ================================================================== *)

Module ScanSpec.

(** The scanner's state: the nesting counter, whether the scan is inside a
    quoted string, and whether the previous byte was an escaping backslash. *)
Record scanState : Type := { depth : Z; inStr : bool; esc : bool }.

Definition scanInit : scanState := {| depth := 1; inStr := false; esc := false |}.

(** One byte: a backslash escapes the byte after it; an unescaped quote
    toggles the string state; outside a string an opening parenthesis
    increments the counter and a closing one decrements it. *)
Definition spec_step (st : scanState) (c : ascii) : scanState :=
  if esc st then {| depth := depth st; inStr := inStr st; esc := false |}
  else if Ascii.eqb c backslash then {| depth := depth st; inStr := inStr st; esc := true |}
  else if Ascii.eqb c dquote then {| depth := depth st; inStr := negb (inStr st); esc := false |}
  else if inStr st then st
  else if Ascii.eqb c "(" then {| depth := depth st + 1; inStr := false; esc := false |}
  else if Ascii.eqb c ")" then {| depth := depth st - 1; inStr := false; esc := false |}
  else st.

Definition spec_state (l : gostring) : scanState := fold_left spec_step l scanInit.

(** The counter is zero once the bytes after the opening parenthesis at
    [start], up to and including position [p], have been read. *)
Definition spec_zeroAt (text : gostring) (start p : nat) : bool :=
  (depth (spec_state (slice text (start + 1) (p + 1))) =? 0)%Z.

(** The first position at which the counter returns to zero. *)
Definition spec_closePos (text : gostring) (start : nat) : option nat :=
  find (spec_zeroAt text start) (seq (start + 1) (length text - (start + 1))).

(** The argument text: what lies between the opening parenthesis and that
    position, or the remainder of the text when there is none. *)
Definition spec_argText (text : gostring) (start : nat) : gostring :=
  match spec_closePos text start with
  | Some p => slice text (start + 1) p
  | None => sliceFrom text (start + 1)
  end.

(** The content of a quoted string value: no bare quote, and no backslash
    left without the byte it escapes.  [e] tells whether the previous byte
    was an escaping backslash. *)
Fixpoint stringContentFrom (e : bool) (s : gostring) : bool :=
  match s with
  | [] => negb e
  | c :: r =>
    if e then stringContentFrom false r
    else if Ascii.eqb c backslash then stringContentFrom true r
    else if Ascii.eqb c dquote then false
    else stringContentFrom false r
  end.

Definition stringContent (s : gostring) : bool := stringContentFrom false s.

(** The first offset in [rest] at which the counter, started in [st], is
    zero. *)
Fixpoint firstZero (rest : gostring) (st : scanState) : option nat :=
  match rest with
  | [] => None
  | c :: r =>
    let st' := spec_step st c in
    if (depth st' =? 0)%Z then Some 0 else option_map S (firstZero r st')
  end.

End ScanSpec.
Import ScanSpec.

Module ParseSpec.

(** The cleaned argument text of a primary match. *)
Definition cleanedArg (response : gostring) (m : submatch) : gostring :=
  fixCommonJSONIssues (extractJSONManually response (m1 m - 1)).

(** What the [i]-th primary match contributes to the result: nothing when
    its cleaned argument text is empty; otherwise one call, named by group
    1, whose arguments are the cleaned text when it is valid JSON and the
    wrapped text when it is not. *)
Definition spec_callsOfMatch (quoteQ : gostring -> gostring) (response : gostring)
           (im : nat * submatch) : list ToolCall :=
  let c := cleanedArg response (snd im) in
  match c with
  | [] => []
  | _ :: _ =>
    [ {| ID := str "call_" ++ itoa (Z.of_nat (fst im));
         Name := slice response (m2 (snd im)) (m3 (snd im));
         Function := slice response (m2 (snd im)) (m3 (snd im));
         Input := if Valid c then c else wrapInput quoteQ c |} ]
  end.

End ParseSpec.
Import ParseSpec.

(* ================================================================== *)
(** ** float64 and strconv.ParseFloat *)
(* ================================================================== *)

Module Float64.

(** IEEE 754 binary64. *)
Definition float64 : Type := spec_float.
Definition prec : Z := 53.
Definition emax : Z := 1024.

(** [float64(v)] of an integer: the nearest float, ties to even. *)
Definition ofZ (z : Z) : float64 := binary_normalize prec emax z 0 false.

Definition zero : float64 := S754_zero false.
Definition add (x y : float64) : float64 := SFadd prec emax x y.
Definition sub (x y : float64) : float64 := SFsub prec emax x y.
Definition div (x y : float64) : float64 := SFdiv prec emax x y.
Definition abs (x : float64) : float64 := SFabs x.

(** Go's comparisons; each is false when an operand is NaN, but [!=]. *)
Definition lt (x y : float64) : bool := SFltb x y.
Definition gt (x y : float64) : bool := SFltb y x.
Definition ge (x y : float64) : bool := SFleb y x.
Definition ne (x y : float64) : bool := negb (SFeqb x y).

Definition isInf (x : float64) : bool :=
  match x with S754_infinity _ => true | _ => false end.

(** The float nearest to [n / d] for [0 <= n] and [0 < d], with the sign
    [neg].  The quotient is taken to 65 bits or more and a sticky bit records
    a remainder, so rounding it rounds the exact ratio. *)
Definition ofRatio (neg : bool) (n d : Z) : float64 :=
  let s := (Z.log2 d + 66)%Z in
  let q := (Z.shiftl n s / d)%Z in
  let sticky := if (Z.shiftl n s mod d =? 0)%Z then 0%Z else 1%Z in
  let m := (2 * q + sticky)%Z in
  binary_normalize prec emax (if neg then Z.opp m else m) (- s - 1) neg.

(** The float nearest to [m * 10 ^ e10] for [0 <= m]. *)
Definition ofDecimal (neg : bool) (m e10 : Z) : float64 :=
  if (0 <=? e10)%Z then
    let v := (m * 10 ^ e10)%Z in
    binary_normalize prec emax (if neg then Z.opp v else v) 0 neg
  else ofRatio neg m (10 ^ (- e10)).

(** *** strconv.ParseFloat(s, 64)

    The accepted texts are those of [strconv]: an optional sign before
    inf or infinity, nan, and decimal or hexadecimal floating-point
    literals, letters in either case, with underscores between digits.  The
    value is the float nearest to the number written (ties to even).
    [None] stands for an error: a syntax error, also when text is left over,
    or a range error when the value overflows. *)

(** [lower(c)] of strconv, [c | ('x' - 'X')]: bit 5 is set. *)
Definition lower (c : ascii) : ascii :=
  match c with
  | Ascii b0 b1 b2 b3 b4 _ b6 b7 => Ascii b0 b1 b2 b3 b4 true b6 b7
  end.

Fixpoint commonPrefixLenIgnoreCase (s prefix : gostring) : nat :=
  match s, prefix with
  | c :: s', p :: prefix' =>
    if Ascii.eqb (lowerByte c) p then S (commonPrefixLenIgnoreCase s' prefix') else 0
  | _, _ => 0
  end.

Definition specialInf (neg : bool) (nsign : nat) (s : gostring) : option (float64 * nat) :=
  let n := commonPrefixLenIgnoreCase s (str "infinity") in
  let n := if (3 <? n) && (n <? 8) then 3 else n in
  if (n =? 3) || (n =? 8) then Some (S754_infinity neg, nsign + n) else None.

(** The value and the number of bytes read. *)
Definition special (s : gostring) : option (float64 * nat) :=
  match s with
  | [] => None
  | c :: r =>
    if Ascii.eqb c "+" then specialInf false 1 r
    else if Ascii.eqb c "-" then specialInf true 1 r
    else if Ascii.eqb c "i" || Ascii.eqb c "I" then specialInf false 0 s
    else if Ascii.eqb c "n" || Ascii.eqb c "N" then
      if commonPrefixLenIgnoreCase s (str "nan") =? 3 then Some (S754_nan, 3) else None
    else None
  end.

(** The state of the mantissa loop of [readFloat].  [mantissa] holds every
    digit read ([readFloat] keeps 19 and a truncation flag, and the
    conversion then rounds the number as written); [nd] counts them. *)
Record mantState : Type := {
  mantissa : Z;
  nd : Z;
  dp : Z;
  sawdot : bool;
  sawdigits : bool;
  underscores : bool
}.

Definition hexLetter (c : ascii) : bool :=
  (97 <=? code (lower c)) && (code (lower c) <=? 102).

Fixpoint mantLoop (hex : bool) (s : gostring) (st : mantState) : mantState * gostring :=
  match s with
  | [] => (st, [])
  | c :: r =>
    if Ascii.eqb c "_" then
      mantLoop hex r {| mantissa := mantissa st; nd := nd st; dp := dp st;
                        sawdot := sawdot st; sawdigits := sawdigits st;
                        underscores := true |}
    else if Ascii.eqb c "." then
      if sawdot st then (st, s)
      else mantLoop hex r {| mantissa := mantissa st; nd := nd st; dp := nd st;
                             sawdot := true; sawdigits := sawdigits st;
                             underscores := underscores st |}
    else if isDigit c then
      if Ascii.eqb c "0" && (nd st =? 0)%Z then
        mantLoop hex r {| mantissa := mantissa st; nd := nd st; dp := (dp st - 1)%Z;
                          sawdot := sawdot st; sawdigits := true;
                          underscores := underscores st |}
      else
        mantLoop hex r {| mantissa := (mantissa st * (if hex then 16 else 10)
                                       + Z.of_nat (code c - 48))%Z;
                          nd := (nd st + 1)%Z; dp := dp st;
                          sawdot := sawdot st; sawdigits := true;
                          underscores := underscores st |}
    else if hex && hexLetter c then
      mantLoop hex r {| mantissa := (mantissa st * 16 + Z.of_nat (code (lower c) - 97 + 10))%Z;
                        nd := (nd st + 1)%Z; dp := dp st;
                        sawdot := sawdot st; sawdigits := true;
                        underscores := underscores st |}
    else (st, s)
  end.

(** The digits of an exponent: [e] saturates once it has reached 10000. *)
Fixpoint expLoop (s : gostring) (e : Z) (us : bool) : Z * bool * gostring :=
  match s with
  | [] => (e, us, [])
  | c :: r =>
    if Ascii.eqb c "_" then expLoop r e true
    else if isDigit c then
      expLoop r (if (e <? 10000)%Z then e * 10 + Z.of_nat (code c - 48) else e)%Z us
    else (e, us, s)
  end.

(** [underscoreOK]: an underscore stands between two digits, or between a
    base prefix and a digit.  [saw] is the kind of the previous byte:
    0 for a digit, 1 for an underscore, 2 for anything else, 3 at the start. *)
Fixpoint underscoreLoop (hex : bool) (s : gostring) (saw : nat) : bool :=
  match s with
  | [] => negb (saw =? 1)
  | c :: r =>
    if isDigit c || (hex && hexLetter c) then underscoreLoop hex r 0
    else if Ascii.eqb c "_" then
      if saw =? 0 then underscoreLoop hex r 1 else false
    else if saw =? 1 then false
    else underscoreLoop hex r 2
  end.

Definition underscoreOK (s : gostring) : bool :=
  let s := match s with
           | c :: r => if Ascii.eqb c "-" || Ascii.eqb c "+" then r else s
           | [] => s
           end in
  match s with
  | z :: b :: r =>
    if Ascii.eqb z "0" &&
       (Ascii.eqb (lower b) "b" || Ascii.eqb (lower b) "o" || Ascii.eqb (lower b) "x")
    then underscoreLoop (Ascii.eqb (lower b) "x") r 0
    else underscoreLoop false s 3
  | _ => underscoreLoop false s 3
  end.

(** What [readFloat] reads: the sign, the base, the mantissa, the exponent
    of the base (of 2 for a hexadecimal literal), and the text left over. *)
Record floatParts : Type := {
  fNeg : bool;
  fHex : bool;
  fMant : Z;
  fExp : Z;
  fRest : gostring
}.

(** A hexadecimal literal starts with 0x or 0X and has a byte after it. *)
Definition hexPrefix (s : gostring) : bool :=
  match s with
  | z :: x :: _ :: _ => Ascii.eqb z "0" && Ascii.eqb (lower x) "x"
  | _ => false
  end.

(** The end of [readFloat]: the underscores are checked over the text
    read, and the exponent is that of the mantissa read. *)
Definition finishFloat (s : gostring) (neg hex : bool) (st : mantState)
           (dp2 : Z) (us : bool) (rest : gostring) : option floatParts :=
  if us && negb (underscoreOK (firstn (length s - length rest) s)) then None
  else Some {| fNeg := neg; fHex := hex; fMant := mantissa st;
               fExp := if (mantissa st =? 0)%Z then 0%Z
                       else (dp2 - (if hex then nd st * 4 else nd st))%Z;
               fRest := rest |}.

(** The optional exponent, which a hexadecimal literal must have. *)
Definition readExponent (s : gostring) (neg hex : bool) (st : mantState)
           (s3 : gostring) : option floatParts :=
  let dp0 := if sawdot st then dp st else nd st in
  let dp1 := if hex then (dp0 * 4)%Z else dp0 in
  match s3 with
  | c :: r =>
    if Ascii.eqb (lower c) (if hex then "p" else "e") then
      match r with
      | [] => None
      | d :: r' =>
        let esign := if Ascii.eqb d "-" then (-1)%Z else 1%Z in
        let r1 := if Ascii.eqb d "+" || Ascii.eqb d "-" then r' else r in
        match r1 with
        | d1 :: _ =>
          if isDigit d1 then
            match expLoop r1 0 (underscores st) with
            | (e, us, rest) => finishFloat s neg hex st (dp1 + e * esign)%Z us rest
            end
          else None
        | [] => None
        end
      end
    else if hex then None
    else finishFloat s neg hex st dp1 (underscores st) s3
  | [] => if hex then None else finishFloat s neg hex st dp1 (underscores st) s3
  end.

Definition mantInit : mantState :=
  {| mantissa := 0; nd := 0; dp := 0; sawdot := false;
     sawdigits := false; underscores := false |}.

Definition readFloat (s : gostring) : option floatParts :=
  match s with
  | [] => None
  | c0 :: r0 =>
    let neg := Ascii.eqb c0 "-" in
    let s1 := if Ascii.eqb c0 "+" || Ascii.eqb c0 "-" then r0 else s in
    let hex := hexPrefix s1 in
    let s2 := if hex then skipn 2 s1 else s1 in
    let (st, s3) := mantLoop hex s2 mantInit in
    if negb (sawdigits st) then None else readExponent s neg hex st s3
  end.

Definition floatValue (p : floatParts) : float64 :=
  if fHex p then
    binary_normalize prec emax (if fNeg p then Z.opp (fMant p) else fMant p) (fExp p) (fNeg p)
  else ofDecimal (fNeg p) (fMant p) (fExp p).

Definition ParseFloat (s : gostring) : option float64 :=
  match special s with
  | Some (v, n) => if n =? length s then Some v else None
  | None =>
    match readFloat s with
    | Some p =>
      match fRest p with
      | [] => if isInf (floatValue p) then None else Some (floatValue p)
      | _ :: _ => None
      end
    | None => None
    end
  end.

(** [%.0f]: the integer nearest to the value, ties to even, in decimal. *)
Definition roundHalfEven (m : Z) (e : Z) : Z :=
  if (0 <=? e)%Z then Z.shiftl m e
  else
    let d := Z.shiftl 1 (- e) in
    let q := (m / d)%Z in
    let r := (m mod d)%Z in
    if (2 * r <? d)%Z then q
    else if (d <? 2 * r)%Z then (q + 1)%Z
    else if Z.even q then q else (q + 1)%Z.

Definition fmtF0 (x : float64) : gostring :=
  match x with
  | S754_zero s => if s then str "-0" else str "0"
  | S754_infinity s => if s then str "-Inf" else str "+Inf"
  | S754_nan => str "NaN"
  | S754_finite s m e =>
    (if s then str "-" else []) ++ itoa (roundHalfEven (Zpos m) e)
  end.

End Float64.
Import Float64.

(* ================================================================== *)
(** ** package fitbit: the flexible meal normaliser and LogMealTool *)
(* ================================================================== *)

Module Fitbit.

(** A value of type [any] as [encoding/json] or a Go caller supplies it:
    [nil], a [float64] (every JSON number), an [int] or [int64], a
    [string], or a value of another type, of which only the name that [%T]
    prints matters. *)
Inductive any : Type :=
| ANil
| AFloat64 (v : float64)
| AInt (v : Z)
| AInt64 (v : Z)
| AString (v : gostring)
| AOther (typeName : gostring).

(** The errors of the package, by the [fmt.Errorf] that builds them. *)
Inductive error : Type :=
| NumRequired (fieldName : gostring)
| NumEmpty (fieldName : gostring)
| NumNotNumber (fieldName v : gostring)
| NumWrongType (fieldName typeName : gostring)
| NameRequired
| CaloriesRequired
| InvalidMealType (got : gostring)
| NoFoodItems
| FoodItemError (position : nat) (name : gostring) (err : error)
| CalorieMismatch (calculated expected : float64)
| MissingAccessToken
| MissingUserID
| CreateRequestFailed (name cause : gostring)
| RequestFailed (name cause : gostring)
| Unauthorized
| HTTPStatus (name : gostring) (status : Z)
| LogMealFailed (err : error).

(** [err.Error()]. *)
Fixpoint Error (e : error) : gostring :=
  match e with
  | NumRequired f => f ++ str " is required"
  | NumEmpty f => f ++ str " cannot be empty"
  | NumNotNumber f v => f ++ str " must be a number, got: " ++ v
  | NumWrongType f t => f ++ str " must be a number, got type: " ++ t
  | NameRequired => str "food item must have a name"
  | CaloriesRequired => str "calories must be specified"
  | InvalidMealType got =>
    str "invalid or missing meal type. Must be one of: breakfast, lunch, dinner, snack. Got: "
    ++ quoteASCII got
  | NoFoodItems => str "no food items found. Please provide at least one food item"
  | FoodItemError i name err =>
    str "error parsing food item " ++ itoa (Z.of_nat i) ++ str " (" ++ name ++ str "): "
    ++ Error err
  | CalorieMismatch c x =>
    str "calorie mismatch: calculated " ++ fmtF0 c ++ str " calories but expected "
    ++ fmtF0 x ++ str " calories"
  | MissingAccessToken => str "missing FITBIT_ACCESS_TOKEN"
  | MissingUserID => str "missing FITBIT_USER_ID"
  | CreateRequestFailed name cause =>
    str "failed to create request for " ++ name ++ str ": " ++ cause
  | RequestFailed name cause => str "failed to log " ++ name ++ str " to Fitbit: " ++ cause
  | Unauthorized => str "unauthorized: access token may be expired (401)"
  | HTTPStatus name status => str "failed to log " ++ name ++ str ": HTTP " ++ itoa status
  | LogMealFailed err => str "failed to log meal to Fitbit: " ++ Error err
  end.

(** A Go result [(T, error)]. *)
Inductive result (T : Type) : Type :=
| Ok (v : T)
| Err (e : error).
Arguments Ok {T} v.
Arguments Err {T} e.

(** *** Input types *)
Record FoodItem : Type := {
  Name : gostring; FoodItem_ : gostring; Item : gostring; Food : gostring;
  Quantity : any; Amount : any; Serving : any; Count : any;
  Unit : gostring; Units : gostring; Measurement : gostring; Size : gostring;
  Calories : any; Cals : any; Cal : any; Energy : any;
  Preparation : gostring; BreadType : gostring; CookingMethod : gostring
}.

Record LogMealInput : Type := {
  MealType : gostring;
  Foods : list FoodItem;
  Toast : list FoodItem;
  Snacks : list FoodItem;
  Items : list FoodItem;
  FoodItems : list FoodItem;
  MealTime : gostring;
  Time : gostring;
  Notes : gostring;
  Description : gostring;
  TotalCalories : any
}.

Record ParsedFoodItem : Type := {
  pName : gostring;
  pQuantity : float64;
  pUnit : gostring;
  pCalories : float64
}.

(** *** extractNumberFromText *)

(** The map [wordNumbers]; its keys are distinct. *)
Definition wordNumbers : list (gostring * float64) :=
  [ (str "zero", ofZ 0); (str "one", ofZ 1); (str "two", ofZ 2); (str "three", ofZ 3);
    (str "four", ofZ 4); (str "five", ofZ 5); (str "six", ofZ 6); (str "seven", ofZ 7);
    (str "eight", ofZ 8); (str "nine", ofZ 9); (str "ten", ofZ 10);
    (str "half", ofDecimal false 5 (-1)); (str "quarter", ofDecimal false 25 (-2));
    (str "third", ofDecimal false 33 (-2)); (str "couple", ofZ 2); (str "few", ofZ 3);
    (str "dozen", ofZ 12); (str "pair", ofZ 2); (str "single", ofZ 1) ].

Fixpoint lookup (m : list (gostring * float64)) (key : gostring) : option float64 :=
  match m with
  | [] => None
  | (k, v) :: m' => if eqs k key then Some v else lookup m' key
  end.

(** The groups of the match of the fraction pattern, a caret, one or more
    digits, a slash, one or more digits: both runs of digits are greedy. *)
Definition fractionRe (text : gostring) : option (gostring * gostring) :=
  match span isDigit text with
  | ((_ :: _) as numer, slash :: r) =>
    if Ascii.eqb slash "/" then
      match span isDigit r with
      | ((_ :: _) as denom, _) => Some (numer, denom)
      | ([], _) => None
      end
    else None
  | _ => None
  end.

(** Group 1 of the match of the leading-number pattern: digits, an optional
    dot and any digits; or, when the text starts with no digit, a dot and
    one or more digits. *)
Definition leadingNumberRe (text : gostring) : option gostring :=
  match span isDigit text with
  | ((_ :: _) as ds, r) =>
    match r with
    | dot :: r' =>
      if Ascii.eqb dot "." then Some (ds ++ dot :: fst (span isDigit r')) else Some ds
    | [] => Some ds
    end
  | ([], r) =>
    match r with
    | dot :: r' =>
      if Ascii.eqb dot "." then
        match span isDigit r' with
        | ((_ :: _) as fs, _) => Some (dot :: fs)
        | ([], _) => None
        end
      else None
    | [] => None
    end
  end.

Definition extractNumberFromText (text : gostring) : float64 :=
  let text := TrimSpace (ToLower text) in
  match lookup wordNumbers text with
  | Some num => num
  | None =>
    let fromLeading :=
      match leadingNumberRe text with
      | Some m =>
        match ParseFloat m with
        | Some num => num
        | None => zero
        end
      | None => zero
      end in
    match fractionRe text with
    | Some (m1, m2) =>
      match ParseFloat m1 with
      | Some num =>
        match ParseFloat m2 with
        | Some denom => if ne denom zero then div num denom else fromLeading
        | None => fromLeading
        end
      | None => fromLeading
      end
    | None => fromLeading
    end
  end.

(** *** parseNumberField *)
Definition parseNumberField (value : any) (fieldName : gostring) : result float64 :=
  match value with
  | ANil => Err (NumRequired fieldName)
  | AFloat64 v => Ok v
  | AInt v => Ok (ofZ v)
  | AInt64 v => Ok (ofZ v)
  | AString v =>
    let v := TrimSpace v in
    if eqs v [] then Err (NumEmpty fieldName) else
    match ParseFloat v with
    | Some num => Ok num
    | None =>
      let v := ToLower v in
      let num := extractNumberFromText v in
      if gt num zero then Ok num else Err (NumNotNumber fieldName v)
    end
  | AOther t => Err (NumWrongType fieldName t)
  end.

(** *** Per-item fields *)

(** [for _, candidate := range candidates]: the first candidate that is not
    blank, trimmed. *)
Fixpoint firstNonBlank (candidates : list gostring) : option gostring :=
  match candidates with
  | [] => None
  | candidate :: rest =>
    if negb (eqs (TrimSpace candidate) []) then Some (TrimSpace candidate)
    else firstNonBlank rest
  end.

Definition getAnyFoodName (food : FoodItem) : gostring :=
  match firstNonBlank [Name food; FoodItem_ food; Item food; Food food] with
  | Some name => name
  | None => []
  end.

Definition isNil (v : any) : bool := match v with ANil => true | _ => false end.

Fixpoint firstQuantity (candidates : list any) : option float64 :=
  match candidates with
  | [] => None
  | candidate :: rest =>
    if negb (isNil candidate) then
      match parseNumberField candidate (str "quantity") with
      | Ok qty => if gt qty zero then Some qty else firstQuantity rest
      | Err _ => firstQuantity rest
      end
    else firstQuantity rest
  end.

Definition getAnyQuantity (food : FoodItem) : result float64 :=
  match firstQuantity [Quantity food; Amount food; Serving food; Count food] with
  | Some qty => Ok qty
  | None => Ok (ofZ 1)
  end.

Fixpoint firstCalories (candidates : list any) : option float64 :=
  match candidates with
  | [] => None
  | candidate :: rest =>
    if negb (isNil candidate) then
      match parseNumberField candidate (str "calories") with
      | Ok cal => if ge cal zero then Some cal else firstCalories rest
      | Err _ => firstCalories rest
      end
    else firstCalories rest
  end.

Definition getAnyCalories (food : FoodItem) : result float64 :=
  match firstCalories [Calories food; Cals food; Cal food; Energy food] with
  | Some cal => Ok cal
  | None => Err CaloriesRequired
  end.

Definition oneOf (s : gostring) (cases : list string) : bool :=
  existsb (fun c => eqs s (str c)) cases.

Definition normalizeUnit (unit : gostring) : gostring :=
  let normalized := ToLower (TrimSpace unit) in
  if oneOf normalized ["slice"; "slices"; "piece"; "pieces"]%string then str "slices"
  else if oneOf normalized ["large"; "medium"; "small"; "whole"; "egg"; "eggs"]%string
    then str "large"
  else if oneOf normalized ["cup"; "cups"; "c"]%string then str "cups"
  else if oneOf normalized ["tbsp"; "tablespoon"; "tablespoons"]%string then str "tbsp"
  else if oneOf normalized ["tsp"; "teaspoon"; "teaspoons"]%string then str "tsp"
  else if oneOf normalized ["oz"; "ounce"; "ounces"]%string then str "oz"
  else if oneOf normalized ["lb"; "pound"; "pounds"]%string then str "lbs"
  else if oneOf normalized ["g"; "gram"; "grams"]%string then str "g"
  else if oneOf normalized ["serving"; "servings"; "portion"; "portions"]%string
    then str "servings"
  else normalized.

Definition getDefaultUnit (foodName : gostring) : gostring :=
  let name := ToLower foodName in
  if Contains name (str "toast") || Contains name (str "bread") || Contains name (str "slice")
  then str "slices"
  else if Contains name (str "egg") then str "large"
  else if Contains name (str "cup") || Contains name (str "milk") || Contains name (str "juice")
  then str "cups"
  else str "servings".

Definition getAnyUnit (food : FoodItem) (foodName : gostring) : gostring :=
  match firstNonBlank [Unit food; Units food; Measurement food; Size food] with
  | Some candidate => normalizeUnit candidate
  | None => getDefaultUnit foodName
  end.

Definition parseFoodItem (food : FoodItem) : result ParsedFoodItem :=
  let name := getAnyFoodName food in
  if eqs name [] then Err NameRequired else
  match getAnyQuantity food with
  | Err err => Err err
  | Ok quantity =>
    match getAnyCalories food with
    | Err err => Err err
    | Ok calories =>
      Ok {| pName := name; pQuantity := quantity;
            pUnit := getAnyUnit food name; pCalories := calories |}
    end
  end.

(** *** Meal-level fields *)
Definition normalizeMealType (mealType : gostring) : gostring :=
  let normalized := ToLower (TrimSpace mealType) in
  if oneOf normalized ["breakfast"; "lunch"; "dinner"; "snack"]%string then normalized
  else if oneOf normalized ["morning"; "am"]%string then str "breakfast"
  else if oneOf normalized ["noon"; "midday"; "afternoon"; "pm"]%string then str "lunch"
  else if oneOf normalized ["evening"; "night"; "supper"]%string then str "dinner"
  else if oneOf normalized ["snacking"; "treat"; "dessert"]%string then str "snack"
  else [].

Definition collectAllFoods (input : LogMealInput) : list FoodItem :=
  let allFoods := [] in
  let allFoods := allFoods ++ Foods input in
  let allFoods := allFoods ++ Toast input in
  let allFoods := allFoods ++ Snacks input in
  let allFoods := allFoods ++ Items input in
  let allFoods := allFoods ++ FoodItems input in
  allFoods.

Definition getMealTime (input : LogMealInput) : gostring :=
  match firstNonBlank [MealTime input; Time input] with
  | Some t => t
  | None => str "now"
  end.

Definition getNotes (input : LogMealInput) : gostring :=
  match firstNonBlank [Notes input; Description input] with
  | Some n => n
  | None => []
  end.

(** *** The remote call *)

(** What one POST to the food log comes to: the request cannot be built,
    the transport fails, or a response arrives with a status code. *)
Inductive HTTPOutcome : Type :=
| NewRequestError (cause : gostring)
| DoError (cause : gostring)
| Response (StatusCode : Z).

(** The world [Execute] runs in: the two environment variables as
    [os.Getenv] returns them once the configuration is loaded, and the
    outcome of the k-th request of the call. *)
Record Env : Type := {
  FITBIT_ACCESS_TOKEN : gostring;
  FITBIT_USER_ID : gostring;
  http : nat -> HTTPOutcome
}.

Definition isAuthenticated (env : Env) : bool :=
  negb (eqs (FITBIT_ACCESS_TOKEN env) []).

(** [for _, food := range foods], the k-th request being the next one. *)
Fixpoint logFoods (env : Env) (k : nat) (foods : list ParsedFoodItem) : option error :=
  match foods with
  | [] => None
  | food :: rest =>
    match http env k with
    | NewRequestError cause => Some (CreateRequestFailed (pName food) cause)
    | DoError cause => Some (RequestFailed (pName food) cause)
    | Response status =>
      if (status =? 401)%Z then Some Unauthorized
      else if (status <? 200)%Z || (300 <=? status)%Z
      then Some (HTTPStatus (pName food) status)
      else logFoods env (k + 1) rest
    end
  end.

(** [nil] is [None]. *)
Definition logMealToFitbit (env : Env) (mealType : gostring)
           (foods : list ParsedFoodItem) (input : LogMealInput) : option error :=
  if eqs (FITBIT_ACCESS_TOKEN env) [] then Some MissingAccessToken
  else if eqs (FITBIT_USER_ID env) [] then Some MissingUserID
  else logFoods env 0 foods.

(** *** Execute *)

(** What [Execute] returns without an error: one of the two messages
    that suggest a login, or the report of the logged meal, of which the
    fields that [fmt.Sprintf] prints are kept. *)
Inductive output : Type :=
| AuthenticationRequired
| AuthenticationExpired
| Logged (mealType mealTime : gostring) (foods : list ParsedFoodItem)
         (totalCalories : float64) (notes : gostring).

Definition nl : gostring := [ascii_of_nat 10].

(** The lock emoji U+1F510 in UTF-8. *)
Definition lock : gostring := map ascii_of_nat [240; 159; 148; 144].

(** The text of the two login messages. *)
Definition outputText (o : output) : option gostring :=
  match o with
  | AuthenticationRequired =>
    Some (lock ++ str " Authentication Required!" ++ nl ++ nl ++
          str "To log meals to Fitbit, you need to authenticate first. Let me help you with that."
          ++ nl ++ nl ++ str "TOOL_CALL: fitbit_login({})" ++ nl ++ nl ++
          str "After authentication, I'll log your meal automatically.")
  | AuthenticationExpired =>
    Some (lock ++ str " Authentication Expired!" ++ nl ++ nl ++
          str "Your Fitbit access token has expired. Let me help you re-authenticate."
          ++ nl ++ nl ++ str "TOOL_CALL: fitbit_login({})" ++ nl ++ nl ++
          str "After re-authentication, I'll log your meal automatically.")
  | Logged _ _ _ _ _ => None
  end.

(** [for i, food := range allFoods]. *)
Fixpoint parseFoods (i : nat) (allFoods : list FoodItem)
         (parsedFoods : list ParsedFoodItem) : result (list ParsedFoodItem) :=
  match allFoods with
  | [] => Ok parsedFoods
  | food :: rest =>
    match parseFoodItem food with
    | Err err => Err (FoodItemError (i + 1) (getAnyFoodName food) err)
    | Ok parsed => parseFoods (i + 1) rest (parsedFoods ++ [parsed])
    end
  end.

Definition sumCalories (parsedFoods : list ParsedFoodItem) : float64 :=
  fold_left (fun totalCalories food => add totalCalories (pCalories food)) parsedFoods zero.

(** The cross-check against [total_calories]: the error, if any. *)
Definition checkTotal (mealInput : LogMealInput) (totalCalories : float64) : option error :=
  if negb (isNil (TotalCalories mealInput)) then
    match parseNumberField (TotalCalories mealInput) (str "total_calories") with
    | Ok expectedTotal =>
      if gt expectedTotal zero then
        let diff := sub totalCalories expectedTotal in
        if lt diff (ofZ (-50)) || gt diff (ofZ 50)
        then Some (CalorieMismatch totalCalories expectedTotal)
        else None
      else None
    | Err _ => None
    end
  else None.

(** [Execute], from the decoded [LogMealInput] on ([json.Unmarshal] of the
    raw message, and the unwrapping of an input field before it, belong to
    the JSON front end). *)
Definition Execute (env : Env) (mealInput : LogMealInput) : result output :=
  let mealType := normalizeMealType (MealType mealInput) in
  if eqs mealType [] then Err (InvalidMealType (MealType mealInput)) else
  let allFoods := collectAllFoods mealInput in
  if length allFoods =? 0 then Err NoFoodItems else
  match parseFoods 0 allFoods [] with
  | Err e => Err e
  | Ok parsedFoods =>
    if negb (isAuthenticated env) then Ok AuthenticationRequired else
    let totalCalories := sumCalories parsedFoods in
    match checkTotal mealInput totalCalories with
    | Some e => Err e
    | None =>
      match logMealToFitbit env mealType parsedFoods mealInput with
      | Some err =>
        if Contains (Error err) (str "401") || Contains (Error err) (str "unauthorized")
        then Ok AuthenticationExpired
        else Err (LogMealFailed err)
      | None =>
        Ok (Logged mealType (getMealTime mealInput) parsedFoods totalCalories
                   (getNotes mealInput))
      end
    end
  end.

End Fitbit.

(* ================================================================== *)
(** ** Per-item resolution as the specification words it *)
(* ================================================================== *)

Module MealSpec.
Import Fitbit.

(** A candidate resolves when it parses to a value that meets the bound. *)
Definition spec_resolves (fieldLabel : string) (bound : float64 -> bool)
           (candidate : any) : option float64 :=
  match parseNumberField candidate (str fieldLabel) with
  | Ok v => if bound v then Some v else None
  | Err _ => None
  end.

(** The first candidate of a prioritised list that resolves. *)
Fixpoint spec_firstResolved (resolve : any -> option float64) (candidates : list any)
  : option float64 :=
  match candidates with
  | [] => None
  | c :: rest =>
    match resolve c with
    | Some v => Some v
    | None => spec_firstResolved resolve rest
    end
  end.

(** Quantity: the first of quantity, amount, serving, count that parses to
    a value above 0; 1.0 when none does. *)
Definition spec_quantity (food : FoodItem) : float64 :=
  match spec_firstResolved (spec_resolves "quantity" (fun v => gt v zero))
          [Quantity food; Amount food; Serving food; Count food] with
  | Some q => q
  | None => ofZ 1
  end.

(** Calories: the first of calories, cals, cal, energy that parses to a
    value of 0 or more; none otherwise. *)
Definition spec_calories (food : FoodItem) : option float64 :=
  spec_firstResolved (spec_resolves "calories" (fun v => ge v zero))
    [Calories food; Cals food; Cal food; Energy food].

(** The five source lists of food items, in the order of collection. *)
Definition spec_allFoods (input : LogMealInput) : list FoodItem :=
  Foods input ++ Toast input ++ Snacks input ++ Items input ++ FoodItems input.

End MealSpec.

Module NumberSpec.

(** The text does not start with a digit. *)
Definition noLeadingDigit (s : gostring) : bool :=
  match s with
  | c :: _ => negb (isDigit c)
  | [] => true
  end.

(** A decimal or an integer: digits, then optionally a dot and any digits;
    or a dot and one or more digits. *)
Definition spec_isNumberToken (s : gostring) : bool :=
  match span isDigit s with
  | (_ :: _, []) => true
  | (_ :: _, dot :: fs) => Ascii.eqb dot "." && forallb isDigit fs
  | ([], dot :: f :: fs) => Ascii.eqb dot "." && forallb isDigit (f :: fs)
  | ([], _) => false
  end.

End NumberSpec.
Import NumberSpec.

(* ================================================================== *)
(** ** package agent: the conversation loop *)
(* ================================================================== *)

Module Agent.

Record Message : Type := { Role : gostring; Content : gostring }.

Record Response : Type := { RContent : gostring; ToolCalls : list ToolCall }.

(** What the loop does to the world, in order.  Printing is left out. *)
Inductive event : Type :=
| EvGetInput (line : option gostring)
| EvGenerateResponse (conversation : list Message) (outcome : Response + gostring)
| EvExecute (toolCall : ToolCall) (result : gostring).

(** How one pass through the body of the loop ends. *)
Inductive control : Type :=
| Continue (conversation : list Message) (readUserInput : bool)
| Break
| Return (err : gostring).

Section Run.

(** The collaborators of the agent act on a world of their own: the input
    provider ([None] at the end of the input), the LLM provider (a response
    or the text of an error), and the registry, which gives for a name the
    [Execute] of its tool (a result or the text of an error). *)
Variable World : Type.
Variable GetInput : World -> option gostring * World.
Variable GenerateResponse : list Message -> World -> (Response + gostring) * World.
Variable GetTool : gostring -> option (gostring -> World -> (gostring + gostring) * World).

Definition recoverableKeywords : list string :=
  [ "quota"; "rate limit"; "429"; "api key"; "401"; "403"; "service unavailable";
    "502"; "503"; "504"; "timeout"; "temporary" ]%string.

Definition isRecoverableError (err : gostring) : bool :=
  let errStr := ToLower err in
  existsb (fun keyword => Contains errStr (str keyword)) recoverableKeywords.

Definition executeTool (toolCall : ToolCall) (w : World) : gostring * World :=
  match GetTool (Name toolCall) with
  | None => (str "Error: tool '" ++ Name toolCall ++ str "' not found", w)
  | Some Execute =>
    match Execute (Input toolCall) w with
    | (inr err, w') =>
      (str "Error executing tool '" ++ Name toolCall ++ str "': " ++ err, w')
    | (inl result, w') => (result, w')
    end
  end.

(** [for _, toolCall := range response.ToolCalls]: the results, the events
    and the world after. *)
Fixpoint executeAll (toolCalls : list ToolCall) (toolResults : list gostring)
         (w : World) : list gostring * list event * World :=
  match toolCalls with
  | [] => (toolResults, [], w)
  | toolCall :: rest =>
    let (result, w1) := executeTool toolCall w in
    match executeAll rest (toolResults ++ [result]) w1 with
    | (results, evs, w2) => (results, EvExecute toolCall result :: evs, w2)
    end
  end.

(** [for i, result := range toolResults]: each result is appended as a
    user message; [readUserInput] is false before the loop and is set to
    false again for a result that holds the directive token. *)
Fixpoint appendResults (toolResults : list gostring) (conversation : list Message)
         (readUserInput : bool) : list Message * bool :=
  match toolResults with
  | [] => (conversation, readUserInput)
  | result :: rest =>
    let conversation :=
      conversation ++ [ {| Role := str "user"; Content := str "Tool result: " ++ result |} ] in
    let readUserInput :=
      if Contains result (str "TOOL_CALL:") then false else readUserInput in
    appendResults rest conversation readUserInput
  end.

(** One pass through the body of [for { ... }]. *)
Definition iteration (conversation : list Message) (readUserInput : bool) (w : World)
  : control * list event * World :=
  let afterInput : option (list Message) * list event * World :=
    if readUserInput then
      match GetInput w with
      | (Some userInput, w1) =>
        (Some (conversation ++ [ {| Role := str "user"; Content := userInput |} ]),
         [EvGetInput (Some userInput)], w1)
      | (None, w1) => (None, [EvGetInput None], w1)
      end
    else (Some conversation, [], w) in
  match afterInput with
  | (None, evs, w1) => (Break, evs, w1)
  | (Some conversation, evs, w1) =>
    match GenerateResponse conversation w1 with
    | (inr err, w2) =>
      let evs := evs ++ [EvGenerateResponse conversation (inr err)] in
      if isRecoverableError err then
        let (ack, w3) := GetInput w2 in
        (Continue conversation true, evs ++ [EvGetInput ack], w3)
      else (Return (str "LLM error: " ++ err), evs, w2)
    | (inl response, w2) =>
      let evs := evs ++ [EvGenerateResponse conversation (inl response)] in
      let conversation :=
        conversation ++ [ {| Role := str "assistant"; Content := RContent response |} ] in
      match executeAll (ToolCalls response) [] w2 with
      | (toolResults, evs', w3) =>
        if length toolResults =? 0 then (Continue conversation true, evs ++ evs', w3)
        else
          let (conversation, readUserInput) := appendResults toolResults conversation false in
          (Continue conversation readUserInput, evs ++ evs', w3)
      end
    end
  end.

(** How a run of at most [fuel] passes ends: the loop is left at the end
    of the input ([Run] returns nil), it returns an error, or passes remain
    to be made. *)
Inductive outcome : Type :=
| Finished
| Failed (err : gostring)
| Running (conversation : list Message) (readUserInput : bool).

Fixpoint loop (fuel : nat) (conversation : list Message) (readUserInput : bool)
         (w : World) : outcome * list event * World :=
  match fuel with
  | 0 => (Running conversation readUserInput, [], w)
  | S fuel' =>
    match iteration conversation readUserInput w with
    | (Break, evs, w1) => (Finished, evs, w1)
    | (Return err, evs, w1) => (Failed err, evs, w1)
    | (Continue conversation' readUserInput', evs, w1) =>
      match loop fuel' conversation' readUserInput' w1 with
      | (o, evs', w2) => (o, evs ++ evs', w2)
      end
    end
  end.

(** [Run]: the conversation starts empty and the first pass reads input. *)
Definition Run (fuel : nat) (w : World) : outcome * list event * World :=
  loop fuel [] true w.

End Run.

Arguments executeTool {World} GetTool toolCall w.
Arguments executeAll {World} GetTool toolCalls toolResults w.
Arguments iteration {World} GetInput GenerateResponse GetTool conversation readUserInput w.
Arguments loop {World} GetInput GenerateResponse GetTool fuel conversation readUserInput w.
Arguments Run {World} GetInput GenerateResponse GetTool fuel w.

(** A trace in which every executed call comes from the response of the
    model just before it: a response makes its calls pending, an execution
    takes the first pending call, and nothing else happens while calls are
    pending. *)
Fixpoint executesOnlyModelCalls (pending : list ToolCall) (trace : list event) : Prop :=
  match trace with
  | [] => pending = []
  | EvExecute toolCall _ :: trace' =>
    match pending with
    | first :: pending' => first = toolCall /\ executesOnlyModelCalls pending' trace'
    | [] => False
    end
  | EvGenerateResponse _ (inl response) :: trace' =>
    pending = [] /\ executesOnlyModelCalls (ToolCalls response) trace'
  | EvGenerateResponse _ (inr _) :: trace' =>
    pending = [] /\ executesOnlyModelCalls [] trace'
  | EvGetInput _ :: trace' =>
    pending = [] /\ executesOnlyModelCalls [] trace'
  end.

End Agent.

Module LoopSpec.
Import Agent.

(** The turn that carries a tool result back to the model. *)
Definition toolResultMessage (result : gostring) : Message :=
  {| Role := str "user"; Content := str "Tool result: " ++ result |}.

(** The results of the executions of a trace, in order. *)
Definition executedResults (trace : list event) : list gostring :=
  flat_map (fun e => match e with EvExecute _ r => [r] | _ => [] end) trace.

(** The trace starts with a call of the model on [conversation]. *)
Definition startsWithModelCall (conversation : list Message) (trace : list event) : Prop :=
  match trace with
  | EvGenerateResponse c _ :: _ => c = conversation
  | _ => False
  end.

End LoopSpec.

(* ================================================================== *)
(** ** Facts about Go strings *)
(* ================================================================== *)

Lemma eqs_spec (a b : gostring) : eqs a b = true <-> a = b.
Proof.
  revert b; induction a as [|x a IH]; intros [|y b]; simpl; split; try easy.
  - rewrite andb_true_iff, IH. intros [H ->].
    now destruct (Ascii.eqb_spec x y) as [->|].
  - intros [= -> ->]. rewrite Ascii.eqb_refl. simpl. now apply IH.
Qed.

Lemma span_app (p : ascii -> bool) (s : gostring) :
  s = fst (span p s) ++ snd (span p s).
Proof.
  induction s as [|c s IH]; simpl; [reflexivity|].
  destruct (p c); [|reflexivity].
  destruct (span p s) as [a b]; simpl in *. now rewrite IH at 1.
Qed.

Lemma HasPrefix_app (s p : gostring) :
  HasPrefix s p = true -> s = p ++ skipn (length p) s.
Proof.
  revert s; induction p as [|x p IH]; intros [|c s]; simpl; try easy.
  rewrite andb_true_iff. intros [H1 H2].
  destruct (Ascii.eqb_spec c x) as [->|]; [|easy].
  f_equal. now apply IH.
Qed.

Lemma nth_error_skipn_plus (A : Type) (l : list A) (a k : nat) :
  nth_error (skipn a l) k = nth_error l (a + k).
Proof.
  revert l; induction a as [|a IH]; intros l; simpl; [reflexivity|].
  destruct l as [|x l]; simpl; [now destruct k|apply IH].
Qed.

(* ================================================================== *)
(** ** The primary grammar ends at an opening parenthesis *)
(* ================================================================== *)

Lemma matchPrimaryHere_paren (s : gostring) (a b e : nat) :
  matchPrimaryHere s = Some (a, b, e) ->
  1 <= e /\ nth_error s (e - 1) = Some "("%char.
Proof.
  unfold matchPrimaryHere.
  destruct (HasPrefix s (str "TOOL_CALL:")) eqn:Hp; [|discriminate].
  apply HasPrefix_app in Hp.
  set (lit := str "TOOL_CALL:") in *.
  pose proof (span_app reSpace (skipn (length lit) s)) as E1.
  destruct (span reSpace (skipn (length lit) s)) as [sp1 r1]; simpl in E1.
  pose proof (span_app reWord r1) as E2.
  destruct (span reWord r1) as [name r2]; simpl in E2.
  pose proof (span_app reSpace r2) as E3.
  destruct (span reSpace r2) as [sp2 r3]; simpl in E3.
  destruct name as [|n0 name]; [discriminate|].
  destruct r3 as [|c r3]; [discriminate|].
  destruct (Ascii.eqb_spec c "("%char) as [->|]; [|discriminate].
  intros [= <- <- <-]. split; [lia|].
  assert (Hs : s = (lit ++ sp1 ++ (n0 :: name) ++ sp2) ++ "("%char :: r3).
  { rewrite <- !app_assoc. etransitivity; [exact Hp|]. f_equal.
    etransitivity; [exact E1|]. f_equal.
    etransitivity; [exact E2|]. simpl. f_equal. f_equal. exact E3. }
  match goal with
  | |- nth_error _ ?n = _ =>
    replace n with (length (lit ++ sp1 ++ (n0 :: name) ++ sp2))
      by (unfold lit; rewrite !length_app; simpl; lia)
  end.
  rewrite Hs at 1.
  now rewrite nth_error_app2, Nat.sub_diag by lia.
Qed.

Lemma findAllPrimary_paren (text : gostring) :
  forall fuel pos s m, s = skipn pos text ->
    In m (findAllPrimary fuel pos s) ->
    1 <= m1 m /\ nth_error text (m1 m - 1) = Some "("%char.
Proof.
  induction fuel as [|fuel IH]; intros pos s m Hs Hin; simpl in Hin; [easy|].
  destruct s as [|c s']; [easy|].
  destruct (matchPrimaryHere (c :: s')) as [[[a b] e]|] eqn:Hm.
  - destruct (matchPrimaryHere_paren _ _ _ _ Hm) as [He Hn].
    destruct Hin as [<-|Hin]; simpl.
    + split; [lia|].
      rewrite Hs, nth_error_skipn_plus in Hn.
      now replace (pos + e - 1) with (pos + (e - 1)) by lia.
    + apply (IH (pos + e) (skipn e (c :: s'))); [|exact Hin].
      now rewrite Hs, skipn_skipn, Nat.add_comm.
  - apply (IH (pos + 1) s'); [|exact Hin].
    rewrite Nat.add_comm. change (1 + pos) with (S pos).
    assert (E : skipn 1 (skipn pos text) = s') by now rewrite <- Hs.
    now rewrite skipn_skipn in E.
Qed.

Lemma FindAllPrimary_paren (response : gostring) (m : submatch) :
  In m (FindAllPrimary response) ->
  1 <= m1 m /\ nth_error response (m1 m - 1) = Some "("%char.
Proof. now apply findAllPrimary_paren. Qed.

(* ================================================================== *)
(** ** The loop of extractJSONManually refines the specified scan *)
(* ================================================================== *)

Lemma option_map_S_add (pos : nat) (o : option nat) :
  option_map (Nat.add pos) (option_map S o) = option_map (Nat.add (pos + 1)) o.
Proof. destruct o; simpl; f_equal; lia. Qed.

(** While the counter is positive, the loop stops exactly where the
    specified counter first reaches zero. *)
Lemma scanClose_firstZero (rest : gostring) :
  forall pos d i e, (1 <= d)%Z ->
    scanClose rest pos d i e =
    option_map (Nat.add pos) (firstZero rest {| depth := d; inStr := i; esc := e |}).
Proof.
  induction rest as [|c rest IH]; intros pos d i e Hd; simpl; [reflexivity|].
  unfold spec_step; simpl.
  destruct e; simpl.
  { destruct (Z.eqb_spec d 0); [lia|]. now rewrite IH, option_map_S_add. }
  destruct (Ascii.eqb c backslash); simpl.
  { destruct (Z.eqb_spec d 0); [lia|]. now rewrite IH, option_map_S_add. }
  destruct (Ascii.eqb c dquote); simpl.
  { destruct (Z.eqb_spec d 0); [lia|]. now rewrite IH, option_map_S_add. }
  destruct i; simpl.
  { destruct (Z.eqb_spec d 0); [lia|]. now rewrite IH, option_map_S_add. }
  destruct (Ascii.eqb c "("); simpl.
  { destruct (Z.eqb_spec (d + 1) 0); [lia|]. rewrite IH by lia. now rewrite option_map_S_add. }
  destruct (Ascii.eqb c ")"); simpl.
  { destruct (Z.eqb_spec (d - 1) 0); [simpl; f_equal; lia|].
    rewrite IH by lia. now rewrite option_map_S_add. }
  destruct (Z.eqb_spec d 0); [lia|]. now rewrite IH, option_map_S_add.
Qed.

Lemma find_map (A B : Type) (f : A -> B) (p : B -> bool) (l : list A) :
  find p (map f l) = option_map f (find (fun x => p (f x)) l).
Proof.
  induction l as [|x l IH]; simpl; [reflexivity|].
  now destruct (p (f x)).
Qed.

Lemma find_ext_in (A : Type) (p q : A -> bool) (l : list A) :
  (forall x, In x l -> p x = q x) -> find p l = find q l.
Proof.
  induction l as [|x l IH]; intros H; simpl; [reflexivity|].
  rewrite (H x (or_introl eq_refl)). destruct (q x); [reflexivity|].
  apply IH. intros y Hy. apply H. now right.
Qed.

Lemma map_add_seq (b n : nat) :
  forall a, map (Nat.add b) (seq a n) = seq (b + a) n.
Proof.
  induction n as [|n IH]; intros a; simpl; [reflexivity|].
  f_equal. rewrite IH. f_equal. lia.
Qed.

Lemma find_firstZero (rest : gostring) :
  forall st,
    find (fun k => (depth (fold_left spec_step (firstn (k + 1) rest) st) =? 0)%Z)
         (seq 0 (length rest)) = firstZero rest st.
Proof.
  induction rest as [|c rest IH]; intros st; simpl; [reflexivity|].
  destruct (depth (spec_step st c) =? 0)%Z; [reflexivity|].
  rewrite <- seq_shift, find_map. f_equal.
  rewrite <- (IH (spec_step st c)).
  apply find_ext_in. intros k _. reflexivity.
Qed.

Lemma spec_closePos_firstZero (text : gostring) (start : nat) :
  spec_closePos text start =
  option_map (Nat.add (start + 1)) (firstZero (skipn (start + 1) text) scanInit).
Proof.
  unfold spec_closePos.
  rewrite <- find_firstZero, length_skipn.
  set (n := length text - (start + 1)).
  replace (seq (start + 1) n) with (map (Nat.add (start + 1)) (seq 0 n))
    by (rewrite map_add_seq; f_equal; lia).
  rewrite find_map. f_equal.
  apply find_ext_in. intros k _.
  unfold spec_zeroAt, spec_state, slice. do 4 f_equal. lia.
Qed.

(** [extractJSONManually] yields the specified argument text, trimmed. *)
Lemma extractJSONManually_spec (text : gostring) (startPos : nat) :
  nth_error text startPos = Some "("%char ->
  extractJSONManually text startPos = TrimSpace (spec_argText text startPos).
Proof.
  intros H. unfold extractJSONManually, spec_argText. rewrite H. simpl.
  rewrite spec_closePos_firstZero.
  unfold sliceFrom. rewrite scanClose_firstZero by lia. fold scanInit.
  now destruct (firstZero (skipn (startPos + 1) text) scanInit).
Qed.

(* ================================================================== *)
(** ** A quoted string value is transparent to the scan *)
(* ================================================================== *)

Lemma firstZero_app (l1 l2 : gostring) :
  forall st,
    firstZero (l1 ++ l2) st =
    match firstZero l1 st with
    | Some k => Some k
    | None => option_map (Nat.add (length l1)) (firstZero l2 (fold_left spec_step l1 st))
    end.
Proof.
  induction l1 as [|c l1 IH]; intros st; simpl.
  - now destruct (firstZero l2 st).
  - destruct (depth (spec_step st c) =? 0)%Z; [reflexivity|].
    rewrite IH. destruct (firstZero l1 (spec_step st c)); simpl; [reflexivity|].
    now destruct (firstZero l2 _).
Qed.

Lemma spec_step_depth (st : scanState) (c : ascii) :
  (depth st - 1 <= depth (spec_step st c))%Z.
Proof.
  unfold spec_step.
  destruct (esc st), (Ascii.eqb c backslash), (Ascii.eqb c dquote), (inStr st),
    (Ascii.eqb c "("), (Ascii.eqb c ")"); simpl; lia.
Qed.

Lemma firstZero_None_positive (l : gostring) :
  forall st, (1 <= depth st)%Z -> firstZero l st = None ->
    (1 <= depth (fold_left spec_step l st))%Z.
Proof.
  induction l as [|c l IH]; intros st Hd H; simpl in *; [exact Hd|].
  pose proof (spec_step_depth st c) as Hs.
  destruct (Z.eqb_spec (depth (spec_step st c)) 0) as [|Hne]; [discriminate|].
  apply IH; [lia|].
  now destruct (firstZero l (spec_step st c)).
Qed.

(** Inside a string, with the content well formed, a byte leaves the
    counter alone and the scan stays inside the string. *)
Lemma spec_step_in_string (st : scanState) (c : ascii) (r : gostring) :
  inStr st = true ->
  stringContentFrom (esc st) (c :: r) = true ->
  depth (spec_step st c) = depth st /\
  inStr (spec_step st c) = true /\
  stringContentFrom (esc (spec_step st c)) r = true.
Proof.
  destruct st as [d i e]; simpl. intros -> Hc. unfold spec_step; simpl.
  destruct e; simpl; [now repeat split|].
  destruct (Ascii.eqb c backslash); simpl; [now repeat split|].
  destruct (Ascii.eqb c dquote); [discriminate|].
  simpl. now repeat split.
Qed.

Lemma firstZero_in_string (body : gostring) :
  forall st, inStr st = true -> depth st <> 0%Z ->
    stringContentFrom (esc st) body = true ->
    firstZero (body ++ [dquote]) st = None /\
    fold_left spec_step (body ++ [dquote]) st =
      {| depth := depth st; inStr := false; esc := false |}.
Proof.
  induction body as [|c body IH]; intros st Hi Hd Hc.
  - destruct st as [d i e]; simpl in *. subst i.
    destruct e; [discriminate|].
    unfold spec_step; simpl.
    destruct (Z.eqb_spec d 0); [contradiction|]. now split.
  - destruct (spec_step_in_string st c body Hi Hc) as (E1 & E2 & E3).
    simpl. rewrite E1.
    destruct (Z.eqb_spec (depth st) 0); [contradiction|].
    destruct (IH (spec_step st c) E2) as [F1 F2]; [now rewrite E1|exact E3|].
    rewrite F1, F2, E1. now split.
Qed.

(** A complete string value, met outside a string: the counter never
    reaches zero within it, and the scan leaves it in the state in which it
    entered. *)
Lemma firstZero_string_value (body : gostring) (st : scanState) :
  inStr st = false -> esc st = false -> depth st <> 0%Z ->
  stringContent body = true ->
  firstZero (dquote :: body ++ [dquote]) st = None /\
  fold_left spec_step (dquote :: body ++ [dquote]) st = st.
Proof.
  destruct st as [d i e]; simpl. intros -> -> Hd Hc.
  assert (E : spec_step {| depth := d; inStr := false; esc := false |} dquote
              = {| depth := d; inStr := true; esc := false |}) by reflexivity.
  cbn [firstZero fold_left app]. rewrite E. simpl depth.
  destruct (Z.eqb_spec d 0); [contradiction|].
  destruct (firstZero_in_string body {| depth := d; inStr := true; esc := false |})
    as [F1 F2]; try easy.
  rewrite F1, F2. now split.
Qed.

(** The close of the span lies beyond any string value of the argument. *)
Lemma spec_closePos_beyond_string (text a body post : gostring) (start p : nat) :
  skipn (start + 1) text = a ++ dquote :: body ++ dquote :: post ->
  firstZero a scanInit = None ->
  inStr (spec_state a) = false -> esc (spec_state a) = false ->
  stringContent body = true ->
  spec_closePos text start = Some p ->
  start + 1 + length a + length body + 2 <= p.
Proof.
  intros Ht Ha Hi He Hc. rewrite spec_closePos_firstZero, Ht.
  replace (a ++ dquote :: body ++ dquote :: post)
    with (a ++ (dquote :: body ++ [dquote]) ++ post)
    by (simpl; now rewrite <- app_assoc).
  rewrite firstZero_app, Ha, firstZero_app. fold (spec_state a).
  pose proof (firstZero_None_positive a scanInit) as Hpos.
  fold (spec_state a) in Hpos. specialize (Hpos ltac:(simpl; lia) Ha).
  destruct (firstZero_string_value body (spec_state a) Hi He) as [F1 F2];
    [lia|exact Hc|].
  rewrite F1, F2.
  destruct (firstZero post (spec_state a)) as [k|]; simpl; [|discriminate].
  intros [= <-]. rewrite length_app. simpl. lia.
Qed.

(* ================================================================== *)
(** ** ParseToolCalls: one call per primary match with an argument *)
(* ================================================================== *)

Section ParseFacts.

Variable quoteQ : gostring -> gostring.

Lemma primaryStep_spec (response : gostring) (acc : list ToolCall) (im : nat * submatch) :
  primaryStep quoteQ response acc im = acc ++ spec_callsOfMatch quoteQ response im.
Proof.
  destruct im as [i m]. unfold primaryStep, spec_callsOfMatch, cleanedArg. simpl.
  destruct (fixCommonJSONIssues _) as [|c l] eqn:E; simpl.
  - now rewrite app_nil_r.
  - reflexivity.
Qed.

Lemma fold_primaryStep (response : gostring) (l : list (nat * submatch)) :
  forall acc,
    fold_left (primaryStep quoteQ response) l acc =
    acc ++ flat_map (spec_callsOfMatch quoteQ response) l.
Proof.
  induction l as [|im l IH]; intros acc; simpl.
  - now rewrite app_nil_r.
  - now rewrite IH, primaryStep_spec, <- app_assoc.
Qed.

Lemma primaryCalls_spec (response : gostring) :
  primaryCalls quoteQ response =
  flat_map (spec_callsOfMatch quoteQ response) (enumerate (FindAllPrimary response)).
Proof. unfold primaryCalls. now rewrite fold_primaryStep. Qed.

Lemma combine_seq_nth (A : Type) (l : list A) :
  forall a i x, nth_error l i = Some x -> In (a + i, x) (combine (seq a (length l)) l).
Proof.
  induction l as [|y l IH]; intros a i x H; [now destruct i|].
  destruct i as [|i]; simpl in *.
  - injection H as ->. left. f_equal. lia.
  - right. replace (a + S i) with (S a + i) by lia. now apply IH.
Qed.

Lemma enumerate_nth (A : Type) (l : list A) (i : nat) (x : A) :
  nth_error l i = Some x -> In (i, x) (enumerate l).
Proof. intros H. exact (combine_seq_nth A l 0 i x H). Qed.

End ParseFacts.

(* ================================================================== *)
(** ** Claims C1 and C2 *)
(* ================================================================== *)

(** A response whose argument holds parentheses and an escaped quote
    inside a string value:
    TOOL_CALL: f( {k:v} ) where v is the string x\q) and q a quote. *)
Definition response_quoted : gostring :=
  str "TOOL_CALL: f( {" ++ [dquote] ++ str "k" ++ [dquote] ++ str ":" ++
  [dquote] ++ str "(x\" ++ [dquote] ++ str ")" ++ [dquote] ++ str "} ) tail".

Definition match_quoted : submatch := {| m0 := 0; m1 := 13; m2 := 11; m3 := 12 |}.

(** C1 (amended).  For every match of the primary grammar, the byte before
    the end of the match is the opening parenthesis, and the argument text
    that extractJSONManually returns is the text between that parenthesis and
    the first position at which the nesting counter returns to zero (the
    remainder of the text when there is none), with leading and trailing
    white space trimmed; the counter ignores parentheses inside a quoted
    string, an unescaped quote toggles the string state and a backslash
    escapes the byte after it.  In particular the span never closes before the
    end of a well-formed string value of the argument, whatever parentheses
    and escaped quotes that value holds. *)
Theorem extractJSONManually_trimmed_balanced_span :
  forall (response : gostring) (m : submatch),
    In m (FindAllPrimary response) ->
    nth_error response (m1 m - 1) = Some "("%char /\
    extractJSONManually response (m1 m - 1)
      = TrimSpace (spec_argText response (m1 m - 1)) /\
    (forall a body post p,
        skipn (m1 m - 1 + 1) response = a ++ dquote :: body ++ dquote :: post ->
        firstZero a scanInit = None ->
        inStr (spec_state a) = false -> esc (spec_state a) = false ->
        stringContent body = true ->
        spec_closePos response (m1 m - 1) = Some p ->
        m1 m - 1 + 1 + length a + length body + 2 <= p).
Proof.
  intros response m Hin.
  destruct (FindAllPrimary_paren response m Hin) as [_ Hp].
  split; [exact Hp|]. split.
  - now apply extractJSONManually_spec.
  - intros a body post p. apply spec_closePos_beyond_string.
Qed.

Lemma extractJSONManually_trimmed_balanced_span_witness :
  In match_quoted (FindAllPrimary response_quoted) /\
  extractJSONManually response_quoted 12
    = TrimSpace (spec_argText response_quoted 12) /\
  spec_closePos response_quoted 12 = Some 28.
Proof.
  split; [vm_compute; auto|]. split.
  - apply (extractJSONManually_trimmed_balanced_span response_quoted match_quoted).
    vm_compute; auto.
  - reflexivity.
Defined.

(** C1 as stated fails: the text between the parentheses of
    [TOOL_CALL: f( {} )] is [ {} ] with its two blanks, and
    extractJSONManually returns [{}]. *)
Lemma extractJSONManually_not_exact_substring :
  FindAllPrimary (str "TOOL_CALL: f( {} )") = [ {| m0 := 0; m1 := 13; m2 := 11; m3 := 12 |} ] /\
  spec_argText (str "TOOL_CALL: f( {} )") 12 = str " {} " /\
  extractJSONManually (str "TOOL_CALL: f( {} )") 12 = str "{}" /\
  extractJSONManually (str "TOOL_CALL: f( {} )") 12
    <> spec_argText (str "TOOL_CALL: f( {} )") 12.
Proof. repeat split; try reflexivity. vm_compute. discriminate. Qed.

(** C2 (amended).  The calls of the primary loop are, in the order of the
    matches, one call per match whose cleaned argument text (trimmed, one
    trailing semicolon removed, trimmed again) is not empty: its id is call_i
    for the i-th match, its name is group 1, and its arguments are the
    cleaned text verbatim when that is valid JSON and the text wrapped as
    the input field otherwise.  A match whose cleaned text is empty
    contributes no call.  When the primary loop yields a call, these calls
    are the result of ParseToolCalls. *)
Theorem ParseToolCalls_primary_calls :
  forall (quoteQ : gostring -> gostring) (response : gostring),
    primaryCalls quoteQ response
      = flat_map (spec_callsOfMatch quoteQ response) (enumerate (FindAllPrimary response)) /\
    (primaryCalls quoteQ response <> [] ->
       ParseToolCalls quoteQ response = primaryCalls quoteQ response) /\
    (forall i m, nth_error (FindAllPrimary response) i = Some m ->
       match cleanedArg response m with
       | [] => spec_callsOfMatch quoteQ response (i, m) = []
       | c =>
         In {| ID := str "call_" ++ itoa (Z.of_nat i);
               Name := slice response (m2 m) (m3 m);
               Function := slice response (m2 m) (m3 m);
               Input := if Valid c then c else wrapInput quoteQ c |}
            (ParseToolCalls quoteQ response)
       end).
Proof.
  intros quoteQ response.
  assert (Hne : primaryCalls quoteQ response <> [] ->
                ParseToolCalls quoteQ response = primaryCalls quoteQ response).
  { unfold ParseToolCalls. now destruct (primaryCalls quoteQ response). }
  split; [apply primaryCalls_spec|]. split; [exact Hne|].
  intros i m Hnth.
  destruct (cleanedArg response m) as [|c l] eqn:E.
  - unfold spec_callsOfMatch. simpl. now rewrite E.
  - assert (Hin : In {| ID := str "call_" ++ itoa (Z.of_nat i);
                        Name := slice response (m2 m) (m3 m);
                        Function := slice response (m2 m) (m3 m);
                        Input := if Valid (c :: l) then c :: l
                                 else wrapInput quoteQ (c :: l) |}
                     (primaryCalls quoteQ response)).
    { rewrite primaryCalls_spec. apply in_flat_map. exists (i, m). split.
      - now apply enumerate_nth.
      - unfold spec_callsOfMatch. simpl. rewrite E. now left. }
    rewrite Hne; [exact Hin|].
    intros Hnil. now rewrite Hnil in Hin.
Qed.

(** C2 as stated fails: the response [TOOL_CALL: fitbit_login()] has one
    match of the primary grammar, its argument text is empty, and no call
    is emitted for it. *)
Lemma ParseToolCalls_drops_empty_argument :
  FindAllPrimary (str "TOOL_CALL: fitbit_login()")
    = [ {| m0 := 0; m1 := 24; m2 := 11; m3 := 23 |} ] /\
  ParseToolCalls quoteASCII (str "TOOL_CALL: fitbit_login()") = [].
Proof. split; reflexivity. Qed.

(* ================================================================== *)
(** ** The meal normaliser: items, quantities, calories *)
(* ================================================================== *)

Import Fitbit MealSpec.

(** An item with every field absent, to build examples from. *)
Definition emptyFood : FoodItem :=
  {| Name := []; FoodItem_ := []; Item := []; Food := [];
     Quantity := ANil; Amount := ANil; Serving := ANil; Count := ANil;
     Unit := []; Units := []; Measurement := []; Size := [];
     Calories := ANil; Cals := ANil; Cal := ANil; Energy := ANil;
     Preparation := []; BreadType := []; CookingMethod := [] |}.

Definition emptyMeal : LogMealInput :=
  {| MealType := []; Foods := []; Toast := []; Snacks := []; Items := [];
     FoodItems := []; MealTime := []; Time := []; Notes := []; Description := [];
     TotalCalories := ANil |}.

(** A signed-in user whose every request is answered with [status]. *)
Definition envAnswering (status : Z) : Env :=
  {| FITBIT_ACCESS_TOKEN := str "token"; FITBIT_USER_ID := str "-";
     http := fun _ => Fitbit.Response status |}.

Arguments parseNumberField : simpl never.
Arguments ParseFloat : simpl never.
Arguments TrimSpace : simpl never.
Arguments extractNumberFromText : simpl never.

Lemma parseNumberField_nil (fieldName : gostring) :
  parseNumberField ANil fieldName = Err (NumRequired fieldName).
Proof. reflexivity. Qed.

Lemma firstQuantity_spec (candidates : list any) :
  firstQuantity candidates =
  spec_firstResolved (spec_resolves "quantity" (fun v => gt v zero)) candidates.
Proof.
  induction candidates as [|c rest IH]; [reflexivity|].
  cbn [firstQuantity spec_firstResolved]. unfold spec_resolves at 1.
  destruct (isNil c) eqn:N; cbn [negb].
  - destruct c; try discriminate. exact IH.
  - destruct (parseNumberField c (str "quantity")) as [v|e]; [|exact IH].
    now destruct (gt v zero).
Qed.

Lemma firstCalories_spec (candidates : list any) :
  firstCalories candidates =
  spec_firstResolved (spec_resolves "calories" (fun v => ge v zero)) candidates.
Proof.
  induction candidates as [|c rest IH]; [reflexivity|].
  cbn [firstCalories spec_firstResolved]. unfold spec_resolves at 1.
  destruct (isNil c) eqn:N; cbn [negb].
  - destruct c; try discriminate. exact IH.
  - destruct (parseNumberField c (str "calories")) as [v|e]; [|exact IH].
    now destruct (ge v zero).
Qed.

Lemma spec_firstResolved_bound (fieldLabel : string) (bound : float64 -> bool)
      (candidates : list any) (v : float64) :
  spec_firstResolved (spec_resolves fieldLabel bound) candidates = Some v ->
  bound v = true.
Proof.
  induction candidates as [|c rest IH]; simpl; [discriminate|].
  unfold spec_resolves at 1.
  destruct (parseNumberField c (str fieldLabel)) as [x|e]; [|exact IH].
  destruct (bound x) eqn:E; [|exact IH].
  now intros [= <-].
Qed.

Lemma spec_quantity_positive (food : FoodItem) : gt (spec_quantity food) zero = true.
Proof.
  unfold spec_quantity.
  destruct (spec_firstResolved _ _) as [q|] eqn:E; [|reflexivity].
  exact (spec_firstResolved_bound "quantity" (fun v => gt v zero) _ q E).
Qed.

Lemma getAnyQuantity_spec (food : FoodItem) :
  getAnyQuantity food = Ok (spec_quantity food).
Proof.
  unfold getAnyQuantity, spec_quantity. rewrite firstQuantity_spec.
  now destruct (spec_firstResolved _ _).
Qed.

Lemma getAnyCalories_spec (food : FoodItem) :
  getAnyCalories food =
  match spec_calories food with
  | Some cal => Ok cal
  | None => Err CaloriesRequired
  end.
Proof. unfold getAnyCalories, spec_calories. now rewrite firstCalories_spec. Qed.

Lemma parseFoodItem_quantity (food : FoodItem) (parsed : ParsedFoodItem) :
  parseFoodItem food = Ok parsed -> pQuantity parsed = spec_quantity food.
Proof.
  unfold parseFoodItem. rewrite getAnyQuantity_spec.
  destruct (eqs (getAnyFoodName food) []); [discriminate|].
  destruct (getAnyCalories food); [|discriminate].
  now intros [= <-].
Qed.

(** The loop over the items stops at the first item that does not parse
    and reports its one-based position and its name. *)
Lemma parseFoods_first_failure (pre post : list FoodItem) (food : FoodItem) (e : error) :
  Forall (fun f => exists p, parseFoodItem f = Ok p) pre ->
  parseFoodItem food = Err e ->
  forall i acc,
    parseFoods i (pre ++ food :: post) acc =
    Err (FoodItemError (i + length pre + 1) (getAnyFoodName food) e).
Proof.
  intros Hpre Hf. induction Hpre as [|f pre [p Hp] _ IH]; intros i acc; simpl.
  - rewrite Hf. do 2 f_equal. lia.
  - rewrite Hp, IH. do 2 f_equal. lia.
Qed.

Lemma parseFoods_any_failure (l : list FoodItem) (food : FoodItem) (e : error) :
  In food l -> parseFoodItem food = Err e ->
  forall i acc, exists e', parseFoods i l acc = Err e'.
Proof.
  intros Hin Hf. induction l as [|f l IH]; intros i acc; [easy|]. simpl.
  destruct (parseFoodItem f) as [p|e0] eqn:E; [|now eexists].
  destruct Hin as [->|Hin]; [congruence|]. now apply IH.
Qed.

Lemma parseFoods_ok (l : list FoodItem) :
  forall i acc parsed, parseFoods i l acc = Ok parsed ->
    exists ps, parsed = acc ++ ps /\
               Forall2 (fun f p => parseFoodItem f = Ok p) l ps.
Proof.
  induction l as [|f l IH]; intros i acc parsed; simpl.
  - intros [= <-]. exists []. now rewrite app_nil_r.
  - destruct (parseFoodItem f) as [p|e] eqn:E; [|discriminate].
    intros H. destruct (IH _ _ _ H) as (ps & -> & HF).
    exists (p :: ps). rewrite <- app_assoc. split; [reflexivity|].
    now constructor.
Qed.

Lemma collectAllFoods_spec (input : LogMealInput) :
  collectAllFoods input = spec_allFoods input.
Proof.
  unfold collectAllFoods, spec_allFoods. simpl. now rewrite <- !app_assoc.
Qed.

Lemma Execute_no_foods (env : Env) (input : LogMealInput) :
  collectAllFoods input = [] ->
  Execute env input =
  if eqs (normalizeMealType (MealType input)) [] then Err (InvalidMealType (MealType input))
  else Err NoFoodItems.
Proof.
  intros H. unfold Execute. rewrite H. simpl.
  now destruct (eqs (normalizeMealType (MealType input)) []).
Qed.

Lemma Execute_item_failure (env : Env) (input : LogMealInput)
      (pre post : list FoodItem) (food : FoodItem) (e : error) :
  collectAllFoods input = pre ++ food :: post ->
  Forall (fun f => exists p, parseFoodItem f = Ok p) pre ->
  parseFoodItem food = Err e ->
  Execute env input =
  if eqs (normalizeMealType (MealType input)) [] then Err (InvalidMealType (MealType input))
  else Err (FoodItemError (length pre + 1) (getAnyFoodName food) e).
Proof.
  intros H Hpre Hf. unfold Execute. rewrite H.
  destruct (eqs (normalizeMealType (MealType input)) []); [reflexivity|].
  rewrite length_app. simpl length.
  replace (length pre + S (length post) =? 0) with false
    by (symmetry; apply Nat.eqb_neq; lia).
  now rewrite (parseFoods_first_failure pre post food e Hpre Hf).
Qed.

(** Every list splits at its first item that does not parse. *)
Lemma first_failure_split (l : list FoodItem) (food : FoodItem) (e : error) :
  In food l -> parseFoodItem food = Err e ->
  exists pre bad post e',
    l = pre ++ bad :: post /\
    Forall (fun f => exists p, parseFoodItem f = Ok p) pre /\
    parseFoodItem bad = Err e'.
Proof.
  intros Hin Hf. induction l as [|f l IH]; [easy|].
  destruct (parseFoodItem f) as [p|e0] eqn:E.
  - destruct Hin as [->|Hin]; [congruence|].
    destruct (IH Hin) as (pre & bad & post & e' & -> & Hpre & Hbad).
    exists (f :: pre), bad, post, e'. repeat split; [|exact Hbad].
    constructor; [now exists p|exact Hpre].
  - exists [], f, l, e0. repeat split; [constructor|exact E].
Qed.

Lemma parseFoodItem_no_calories (food : FoodItem) :
  spec_calories food = None ->
  exists cause, parseFoodItem food = Err cause /\
                (getAnyFoodName food <> [] -> cause = CaloriesRequired).
Proof.
  intros H. unfold parseFoodItem.
  rewrite getAnyQuantity_spec, getAnyCalories_spec, H.
  destruct (eqs (getAnyFoodName food) []) eqn:E.
  - exists NameRequired. split; [reflexivity|].
    apply eqs_spec in E. congruence.
  - now exists CaloriesRequired.
Qed.

(* ================================================================== *)
(** ** Claims C3, C7 and C10 *)
(* ================================================================== *)

(** The item of the specification: food_item eggs, amount two, and no
    calorie field; and a breakfast made of it. *)
Definition eggsNoCalories : FoodItem :=
  {| Name := []; FoodItem_ := str "eggs"; Item := []; Food := [];
     Quantity := ANil; Amount := AString (str "two"); Serving := ANil; Count := ANil;
     Unit := []; Units := []; Measurement := []; Size := [];
     Calories := ANil; Cals := ANil; Cal := ANil; Energy := ANil;
     Preparation := []; BreadType := []; CookingMethod := [] |}.

Definition eggsBreakfast : LogMealInput :=
  {| MealType := str "breakfast"; Foods := [eggsNoCalories]; Toast := []; Snacks := [];
     Items := []; FoodItems := []; MealTime := []; Time := []; Notes := [];
     Description := []; TotalCalories := ANil |}.

(** C3.  The calories of an item are the first of calories, cals, cal and
    energy that parses to a value of 0 or more.  When none resolves, the
    item does not parse, whatever its name and quantity, and every meal
    that holds the item fails; when the meal category is valid and the items
    before it parse, the error is the one that cites the one-based position
    of the item and its best-effort name, and it tells that calories must
    be specified unless the item has no name either.  The item with
    food_item eggs and amount two fails so, at position 1. *)
Theorem getAnyCalories_first_resolved_or_failure :
  forall food : FoodItem,
    getAnyCalories food
      = match spec_calories food with
        | Some cal => Ok cal
        | None => Err CaloriesRequired
        end /\
    (spec_calories food = None ->
       (forall env input, In food (collectAllFoods input) ->
          exists e, Execute env input = Err e) /\
       (forall env input pre post,
          collectAllFoods input = pre ++ food :: post ->
          normalizeMealType (MealType input) <> [] ->
          Forall (fun f => exists p, parseFoodItem f = Ok p) pre ->
          exists cause,
            Execute env input
              = Err (FoodItemError (length pre + 1) (getAnyFoodName food) cause) /\
            Error (FoodItemError (length pre + 1) (getAnyFoodName food) cause)
              = str "error parsing food item " ++ itoa (Z.of_nat (length pre + 1))
                ++ str " (" ++ getAnyFoodName food ++ str "): " ++ Error cause /\
            (getAnyFoodName food <> [] -> cause = CaloriesRequired))) /\
    (forall env,
       Execute env eggsBreakfast = Err (FoodItemError 1 (str "eggs") CaloriesRequired)).
Proof.
  intros food. split; [apply getAnyCalories_spec|]. split.
  - intros Hnone.
    destruct (parseFoodItem_no_calories food Hnone) as (cause & Hcause & Hname).
    split.
    + intros env input Hin.
      destruct (first_failure_split _ food cause Hin Hcause)
        as (pre & bad & post & e' & Hsplit & Hpre & Hbad).
      rewrite (Execute_item_failure env input pre post bad e' Hsplit Hpre Hbad).
      destruct (eqs _ _); now eexists.
    + intros env input pre post Hsplit Hmeal Hpre.
      exists cause.
      rewrite (Execute_item_failure env input pre post food cause Hsplit Hpre Hcause).
      destruct (eqs (normalizeMealType (MealType input)) []) eqn:E.
      * apply eqs_spec in E. contradiction.
      * split; [reflexivity|]. split; [|exact Hname].
        reflexivity.
  - intros env. reflexivity.
Qed.

(** C7.  The items of a meal are the lists foods, toast, snacks, items and
    food_items, concatenated in that order, each in its own order, so their
    number is the sum of the five lengths.  A meal with no item at all
    fails, and with a valid meal category the error is the one that says
    that no food items were found. *)
Theorem collectAllFoods_concatenation :
  forall input : LogMealInput,
    collectAllFoods input
      = Foods input ++ Toast input ++ Snacks input ++ Items input ++ FoodItems input /\
    length (collectAllFoods input)
      = length (Foods input) + length (Toast input) + length (Snacks input)
        + length (Items input) + length (FoodItems input) /\
    (collectAllFoods input = [] ->
       (forall env, exists e, Execute env input = Err e) /\
       (normalizeMealType (MealType input) <> [] ->
        forall env, Execute env input = Err NoFoodItems)).
Proof.
  intros input. split; [apply collectAllFoods_spec|]. split.
  - rewrite collectAllFoods_spec. unfold spec_allFoods. rewrite !length_app. lia.
  - intros Hnil. split.
    + intros env. rewrite (Execute_no_foods env input Hnil).
      destruct (eqs _ _); now eexists.
    + intros Hmeal env. rewrite (Execute_no_foods env input Hnil).
      destruct (eqs (normalizeMealType (MealType input)) []) eqn:E; [|reflexivity].
      apply eqs_spec in E. contradiction.
Qed.

(** C10.  Quantity resolution never fails: it returns the first of
    quantity, amount, serving and count that parses to a value above 0, and
    1.0 when none does; the value is above 0 in either case, so the quantity
    of every item that parses is above 0.  A candidate that parses to 0 is
    passed over. *)
Theorem getAnyQuantity_total_and_positive :
  forall food : FoodItem,
    getAnyQuantity food = Ok (spec_quantity food) /\
    gt (spec_quantity food) zero = true /\
    (forall parsed, parseFoodItem food = Ok parsed ->
       pQuantity parsed = spec_quantity food /\ gt (pQuantity parsed) zero = true) /\
    (forall rest : list any,
       spec_firstResolved (spec_resolves "quantity" (fun v => gt v zero))
                          (AFloat64 zero :: rest)
       = spec_firstResolved (spec_resolves "quantity" (fun v => gt v zero)) rest).
Proof.
  intros food. split; [apply getAnyQuantity_spec|].
  split; [apply spec_quantity_positive|]. split.
  - intros parsed H. rewrite (parseFoodItem_quantity food parsed H).
    split; [reflexivity|apply spec_quantity_positive].
  - intros rest. reflexivity.
Qed.

(* ================================================================== *)
(** ** The total-calorie cross-check *)
(* ================================================================== *)

Lemma outside_magnitude_abs (diff : float64) (m0 : positive) (e0 : Z) :
  SFltb diff (S754_finite true m0 e0) || SFltb (S754_finite false m0 e0) diff
  = SFltb (S754_finite false m0 e0) (SFabs diff).
Proof.
  destruct diff as [s|s| |s m e]; try (destruct s; reflexivity); [reflexivity|].
  unfold SFltb, SFcompare, SFabs.
  destruct s; [|reflexivity].
  rewrite orb_false_r, (Z.compare_antisym e e0).
  destruct (e ?= e0)%Z; simpl; try reflexivity.
  change (Pos.compare_cont Eq m0 m) with (Pos.compare_cont (CompOpp Eq) m0 m).
  rewrite <- Pos.compare_cont_antisym.
  now destruct (Pos.compare_cont Eq m m0).
Qed.

(** The test of the code, [diff < -50 || diff > 50], is the test that the
    absolute value of the difference exceeds 50, for every float. *)
Lemma outside_tolerance_abs (diff : float64) :
  lt diff (ofZ (-50)) || gt diff (ofZ 50) = gt (abs diff) (ofZ 50).
Proof.
  change (ofZ (-50)) with (S754_finite true 7036874417766400 (-47)).
  change (ofZ 50) with (S754_finite false 7036874417766400 (-47)).
  apply outside_magnitude_abs.
Qed.

Lemma Execute_after_normalization (env : Env) (input : LogMealInput)
      (parsedFoods : list ParsedFoodItem) :
  normalizeMealType (MealType input) <> [] ->
  collectAllFoods input <> [] ->
  parseFoods 0 (collectAllFoods input) [] = Ok parsedFoods ->
  isAuthenticated env = true ->
  Execute env input =
  match checkTotal input (sumCalories parsedFoods) with
  | Some e => Err e
  | None =>
    match logMealToFitbit env (normalizeMealType (MealType input)) parsedFoods input with
    | Some err =>
      if Contains (Error err) (str "401") || Contains (Error err) (str "unauthorized")
      then Ok AuthenticationExpired
      else Err (LogMealFailed err)
    | None =>
      Ok (Logged (normalizeMealType (MealType input)) (getMealTime input) parsedFoods
                 (sumCalories parsedFoods) (getNotes input))
    end
  end.
Proof.
  intros Hmeal Hne Hparse Hauth. unfold Execute.
  destruct (eqs (normalizeMealType (MealType input)) []) eqn:E.
  { apply eqs_spec in E. contradiction. }
  destruct (collectAllFoods input) as [|f l] eqn:F; [contradiction|].
  simpl length. simpl Nat.eqb. cbv iota.
  now rewrite Hparse, Hauth.
Qed.

Lemma checkTotal_declared (input : LogMealInput) (total expected : float64) :
  parseNumberField (TotalCalories input) (str "total_calories") = Ok expected ->
  gt expected zero = true ->
  checkTotal input total =
  if gt (abs (sub total expected)) (ofZ 50)
  then Some (CalorieMismatch total expected) else None.
Proof.
  intros Hp Hg. unfold checkTotal.
  destruct (TotalCalories input) eqn:T; try discriminate; cbn [isNil negb];
    rewrite Hp, Hg, outside_tolerance_abs; reflexivity.
Qed.

Lemma checkTotal_ignored (input : LogMealInput) (total : float64) :
  (forall expected,
      parseNumberField (TotalCalories input) (str "total_calories") = Ok expected ->
      gt expected zero = false) ->
  checkTotal input total = None.
Proof.
  intros H. unfold checkTotal.
  destruct (negb (isNil (TotalCalories input))); [|reflexivity].
  destruct (parseNumberField _ _) as [x|e] eqn:P; [|reflexivity].
  now rewrite (H x eq_refl).
Qed.

Lemma parseFoods_error_shape (l : list FoodItem) :
  forall i acc e, parseFoods i l acc = Err e ->
    exists k name cause, e = FoodItemError k name cause.
Proof.
  induction l as [|f l IH]; intros i acc e; simpl; [discriminate|].
  destruct (parseFoodItem f) as [p|e0].
  - apply IH.
  - intros [= <-]. now eexists _, _, _.
Qed.

(** A mismatch error can only come from the cross-check. *)
Lemma Execute_mismatch_from_check (env : Env) (input : LogMealInput)
      (a b : float64) :
  Execute env input = Err (CalorieMismatch a b) ->
  exists parsedFoods,
    parseFoods 0 (collectAllFoods input) [] = Ok parsedFoods /\
    checkTotal input (sumCalories parsedFoods) = Some (CalorieMismatch a b).
Proof.
  unfold Execute.
  destruct (eqs _ _); [discriminate|].
  destruct (length (collectAllFoods input) =? 0); [discriminate|].
  destruct (parseFoods 0 (collectAllFoods input) []) as [ps|e] eqn:P.
  - destruct (negb (isAuthenticated env)); [discriminate|].
    destruct (checkTotal input (sumCalories ps)) as [e|] eqn:C.
    + intros [= ->]. now exists ps.
    + destruct (logMealToFitbit _ _ _ _) as [err|]; [|discriminate].
      destruct (_ || _); discriminate.
  - destruct (parseFoods_error_shape _ _ _ _ P) as (k & name & cause & ->).
    discriminate.
Qed.

(* ================================================================== *)
(** ** Claim C4 *)
(* ================================================================== *)

Definition foodWith (name : string) (quantity calories : Z) : FoodItem :=
  {| Name := str name; FoodItem_ := []; Item := []; Food := [];
     Quantity := AFloat64 (ofZ quantity); Amount := ANil; Serving := ANil; Count := ANil;
     Unit := []; Units := []; Measurement := []; Size := [];
     Calories := AFloat64 (ofZ calories); Cals := ANil; Cal := ANil; Energy := ANil;
     Preparation := []; BreadType := []; CookingMethod := [] |}.

(** Eggs of 140 and toast of 160 calories, and a declared total. *)
Definition breakfastDeclaring (total : any) : LogMealInput :=
  {| MealType := str "breakfast";
     Foods := [foodWith "eggs" 2 140; foodWith "toast" 2 160];
     Toast := []; Snacks := []; Items := []; FoodItems := [];
     MealTime := []; Time := []; Notes := []; Description := [];
     TotalCalories := total |}.

Definition breakfastParsed : list ParsedFoodItem :=
  [ {| pName := str "eggs"; pQuantity := ofZ 2; pUnit := str "large"; pCalories := ofZ 140 |};
    {| pName := str "toast"; pQuantity := ofZ 2; pUnit := str "slices"; pCalories := ofZ 160 |} ].

(** C4 (amended).  For a meal that is normalised without error, for a user
    who is signed in, and for a declared total that parses to a value above
    0, logging fails with the calorie-mismatch error exactly when the
    absolute value of the difference between the sum of the calories of the
    items and the declared total exceeds 50; no other mismatch error is
    ever returned.  A declared total that does not parse, or that parses to a
    value that is not above 0, is ignored: no mismatch error is returned. *)
Theorem calorie_mismatch_iff_beyond_tolerance :
  forall (env : Env) (input : LogMealInput) (parsedFoods : list ParsedFoodItem)
         (expected : float64),
    normalizeMealType (MealType input) <> [] ->
    collectAllFoods input <> [] ->
    parseFoods 0 (collectAllFoods input) [] = Ok parsedFoods ->
    isAuthenticated env = true ->
    parseNumberField (TotalCalories input) (str "total_calories") = Ok expected ->
    gt expected zero = true ->
    (Execute env input = Err (CalorieMismatch (sumCalories parsedFoods) expected)
     <-> gt (abs (sub (sumCalories parsedFoods) expected)) (ofZ 50) = true) /\
    (forall a b, Execute env input = Err (CalorieMismatch a b) ->
                 a = sumCalories parsedFoods /\ b = expected).
Proof.
  intros env input parsedFoods expected Hmeal Hne Hparse Hauth Hexp Hpos.
  pose proof (checkTotal_declared input (sumCalories parsedFoods) expected Hexp Hpos) as Hc.
  assert (Hany : forall a b, Execute env input = Err (CalorieMismatch a b) ->
                 gt (abs (sub (sumCalories parsedFoods) expected)) (ofZ 50) = true /\
                 a = sumCalories parsedFoods /\ b = expected).
  { intros a b H.
    destruct (Execute_mismatch_from_check env input a b H) as (ps & Hps & Hck).
    rewrite Hparse in Hps. injection Hps as <-.
    rewrite Hc in Hck.
    destruct (gt (abs (sub (sumCalories parsedFoods) expected)) (ofZ 50));
      [|discriminate].
    injection Hck as <- <-. now repeat split. }
  split; [split|].
  - intros H. now destruct (Hany _ _ H).
  - intros H.
    rewrite (Execute_after_normalization env input parsedFoods Hmeal Hne Hparse Hauth).
    now rewrite Hc, H.
  - intros a b H. now destruct (Hany _ _ H).
Qed.

Lemma calorie_mismatch_iff_beyond_tolerance_witness :
  Execute (envAnswering 200) (breakfastDeclaring (AString (str "440")))
  = Err (CalorieMismatch (ofZ 300) (ofZ 440)).
Proof.
  apply (calorie_mismatch_iff_beyond_tolerance
           (envAnswering 200) (breakfastDeclaring (AString (str "440")))
           breakfastParsed (ofZ 440));
    try reflexivity; try (vm_compute; discriminate).
Defined.

(** A declared total that is ignored yields no mismatch error. *)
Lemma calorie_check_ignored (env : Env) (input : LogMealInput) :
  (forall expected,
      parseNumberField (TotalCalories input) (str "total_calories") = Ok expected ->
      gt expected zero = false) ->
  forall a b, Execute env input <> Err (CalorieMismatch a b).
Proof.
  intros H a b HE.
  destruct (Execute_mismatch_from_check env input a b HE) as (ps & _ & Hck).
  now rewrite (checkTotal_ignored input (sumCalories ps) H) in Hck.
Qed.

(** The tolerance itself: a sum of 300 against a declared 350 is logged,
    against a declared 351 it is a mismatch. *)
Example calorie_difference_of_50_is_logged :
  Execute (envAnswering 200) (breakfastDeclaring (AFloat64 (ofZ 350)))
  = Ok (Logged (str "breakfast") (str "now") breakfastParsed (ofZ 300) []) /\
  Execute (envAnswering 200) (breakfastDeclaring (AFloat64 (ofZ 351)))
  = Err (CalorieMismatch (ofZ 300) (ofZ 351)).
Proof. split; reflexivity. Qed.

(** C4 as stated fails: the meal declares the total 0, its items sum to
    300, the difference exceeds 50, and the meal is logged. *)
Lemma declared_total_zero_is_not_checked :
  TotalCalories (breakfastDeclaring (AFloat64 zero)) = AFloat64 zero /\
  gt (abs (sub (sumCalories breakfastParsed) zero)) (ofZ 50) = true /\
  Execute (envAnswering 200) (breakfastDeclaring (AFloat64 zero))
  = Ok (Logged (str "breakfast") (str "now") breakfastParsed (ofZ 300) []).
Proof. repeat split. Qed.

(* ================================================================== *)
(** ** Claim C9: a 401 from the remote call *)
(* ================================================================== *)

Lemma logFoods_unauthorized (env : Env) (foods : list ParsedFoodItem) :
  forall k j,
    j < length foods ->
    (forall i, i < j ->
       exists s, http env (k + i) = Fitbit.Response s /\ (200 <= s < 300)%Z) ->
    http env (k + j) = Fitbit.Response 401 ->
    logFoods env k foods = Some Unauthorized.
Proof.
  induction foods as [|food rest IH]; intros k j Hj Hok H401; simpl in Hj; [lia|].
  simpl. destruct j as [|j].
  - rewrite Nat.add_0_r in H401. now rewrite H401.
  - destruct (Hok 0 ltac:(lia)) as (s & Hs & Hrange).
    rewrite Nat.add_0_r in Hs. rewrite Hs.
    destruct (Z.eqb_spec s 401); [lia|].
    destruct (Z.ltb_spec s 200); [lia|].
    destruct (Z.leb_spec 300 s); [lia|]. simpl.
    apply (IH (k + 1) j); [lia| |].
    + intros i Hi. destruct (Hok (S i) ltac:(lia)) as (s' & Hs' & Hr').
      exists s'. split; [|exact Hr'].
      now replace (k + 1 + i) with (k + S i) by lia.
    + now replace (k + 1 + j) with (k + S j) by lia.
Qed.

Lemma HasPrefix_false_head (c d : ascii) (s p : gostring) :
  Ascii.eqb c d = false -> (c :: s) <> (d :: p).
Proof. intros H [= -> _]. now rewrite Ascii.eqb_refl in H. Qed.

(** C9.  When the request for some item is answered with status 401, the
    requests before it having succeeded, logMealToFitbit reports the
    unauthorized error, whose text mentions 401 and differs from the text
    reported for any other failure status, whatever the name of the item;
    and Execute, for a meal that passed normalisation, the sign-in check and
    the cross-check, returns the message that suggests to sign in again,
    which embeds the directive TOOL_CALL: fitbit_login({}), and not the
    generic logging error. *)
Theorem unauthorized_takes_reauthentication_path :
  forall (env : Env) (input : LogMealInput) (parsedFoods : list ParsedFoodItem) (j : nat),
    normalizeMealType (MealType input) <> [] ->
    collectAllFoods input <> [] ->
    parseFoods 0 (collectAllFoods input) [] = Ok parsedFoods ->
    FITBIT_ACCESS_TOKEN env <> [] ->
    FITBIT_USER_ID env <> [] ->
    checkTotal input (sumCalories parsedFoods) = None ->
    j < length parsedFoods ->
    (forall i, i < j -> exists s, http env i = Fitbit.Response s /\ (200 <= s < 300)%Z) ->
    http env j = Fitbit.Response 401 ->
    logMealToFitbit env (normalizeMealType (MealType input)) parsedFoods input
      = Some Unauthorized /\
    Contains (Error Unauthorized) (str "401") = true /\
    (forall name status, Error (HTTPStatus name status) <> Error Unauthorized) /\
    Execute env input = Ok AuthenticationExpired /\
    (forall err, Execute env input <> Err (LogMealFailed err)) /\
    (exists text, outputText AuthenticationExpired = Some text /\
                  Contains text (str "TOOL_CALL: fitbit_login({})") = true).
Proof.
  intros env input parsedFoods j Hmeal Hne Hparse Htok Huid Hck Hj Hok H401.
  assert (Ht : eqs (FITBIT_ACCESS_TOKEN env) [] = false).
  { destruct (eqs (FITBIT_ACCESS_TOKEN env) []) eqn:E;
      [apply eqs_spec in E; contradiction|reflexivity]. }
  assert (Hu : eqs (FITBIT_USER_ID env) [] = false).
  { destruct (eqs (FITBIT_USER_ID env) []) eqn:E;
      [apply eqs_spec in E; contradiction|reflexivity]. }
  assert (Hlog : logMealToFitbit env (normalizeMealType (MealType input)) parsedFoods input
                 = Some Unauthorized).
  { unfold logMealToFitbit. rewrite Ht, Hu.
    now apply (logFoods_unauthorized env parsedFoods 0 j). }
  assert (HE : Execute env input = Ok AuthenticationExpired).
  { rewrite (Execute_after_normalization env input parsedFoods Hmeal Hne Hparse).
    - now rewrite Hck, Hlog.
    - unfold isAuthenticated. now rewrite Ht. }
  split; [exact Hlog|]. split; [reflexivity|]. split.
  { intros name status. now apply HasPrefix_false_head. }
  split; [exact HE|]. split.
  { intros err H. rewrite HE in H. discriminate. }
  eexists. split; reflexivity.
Qed.

Lemma unauthorized_takes_reauthentication_path_witness :
  Execute (envAnswering 401) (breakfastDeclaring ANil) = Ok AuthenticationExpired.
Proof.
  apply (unauthorized_takes_reauthentication_path
           (envAnswering 401) (breakfastDeclaring ANil) breakfastParsed 0);
    try reflexivity; try (vm_compute; discriminate); try (vm_compute; lia).
Defined.

(** The test that Execute applies to the text of the error also holds of
    another failure when the name of the item holds 401: status 500 for an
    item named 401 bar is answered with the same message. *)
Example other_status_with_401_in_name :
  Execute (envAnswering 500)
          {| MealType := str "snack"; Foods := [foodWith "401 bar" 1 200];
             Toast := []; Snacks := []; Items := []; FoodItems := [];
             MealTime := []; Time := []; Notes := []; Description := [];
             TotalCalories := ANil |}
  = Ok AuthenticationExpired.
Proof. reflexivity. Qed.

(* ================================================================== *)
(** ** Bytes, trimming and lower-casing *)
(* ================================================================== *)

(** A byte that no white-space rune contains: an ASCII byte other than the
    six blanks. *)
Definition solid (c : ascii) : bool := negb (asciiSpace c) && (code c <? 128).

Lemma isDigit_cases (c : ascii) :
  isDigit c = true -> In c (str "0123456789").
Proof.
  destruct c as [[] [] [] [] [] [] [] []]; intros H; try discriminate H;
    simpl; tauto.
Qed.

Ltac digit_cases H :=
  let D := fresh "D" in
  pose proof (isDigit_cases _ H) as D; simpl in D;
  repeat (destruct D as [D|D]; [subst|]); [..|contradiction].

Lemma isDigit_solid (c : ascii) : isDigit c = true -> solid c = true.
Proof. intros H. digit_cases H; reflexivity. Qed.

Lemma isDigit_lowerByte (c : ascii) : isDigit (lowerByte c) = isDigit c.
Proof. destruct c as [[] [] [] [] [] [] [] []]; reflexivity. Qed.

Lemma lowerByte_digit (c : ascii) : isDigit c = true -> lowerByte c = c.
Proof. intros H. digit_cases H; reflexivity. Qed.

Lemma lowerByte_eqb_dot (c : ascii) : Ascii.eqb (lowerByte c) "." = Ascii.eqb c ".".
Proof. destruct c as [[] [] [] [] [] [] [] []]; reflexivity. Qed.

Lemma lowerByte_eqb_slash (c : ascii) : Ascii.eqb (lowerByte c) "/" = Ascii.eqb c "/".
Proof. destruct c as [[] [] [] [] [] [] [] []]; reflexivity. Qed.

Lemma ToLower_digits (ds : gostring) : forallb isDigit ds = true -> ToLower ds = ds.
Proof.
  induction ds as [|c ds IH]; simpl; [reflexivity|].
  rewrite andb_true_iff. intros [H1 H2].
  now rewrite (lowerByte_digit c H1), (IH H2).
Qed.

Lemma ToLower_app (a b : gostring) : ToLower (a ++ b) = ToLower a ++ ToLower b.
Proof. apply map_app. Qed.

Lemma span_digits (ds tail : gostring) :
  forallb isDigit ds = true ->
  match tail with c :: _ => isDigit c = false | [] => True end ->
  span isDigit (ds ++ tail) = (ds, tail).
Proof.
  intros Hds Ht. induction ds as [|c ds IH]; simpl in *.
  - destruct tail as [|c t]; [reflexivity|]. simpl. now rewrite Ht.
  - apply andb_true_iff in Hds as [H1 H2]. now rewrite H1, (IH H2).
Qed.

(** *** strings.TrimSpace around a text with solid ends *)

Lemma trimWith_zero (width : gostring -> nat) (fuel : nat) (s : gostring) :
  width s = 0 -> trimWith width fuel s = s.
Proof. intros H. destruct fuel; simpl; [reflexivity|now rewrite H]. Qed.

Lemma spaceWidth_solid (c : ascii) (s : gostring) :
  solid c = true -> spaceWidth (c :: s) = 0.
Proof.
  unfold solid, spaceWidth. rewrite andb_true_iff, negb_true_iff, Nat.ltb_lt.
  intros [-> H].
  replace (code c =? 194) with false by (symmetry; apply Nat.eqb_neq; lia).
  replace (code c =? 225) with false by (symmetry; apply Nat.eqb_neq; lia).
  replace (code c =? 226) with false by (symmetry; apply Nat.eqb_neq; lia).
  replace (code c =? 227) with false by (symmetry; apply Nat.eqb_neq; lia).
  simpl. now destruct s as [|d [|e s]].
Qed.

Lemma TrimLeftSpace_solid (c : ascii) (s : gostring) :
  solid c = true -> TrimLeftSpace (c :: s) = c :: s.
Proof. intros H. apply trimWith_zero. now apply spaceWidth_solid. Qed.

Lemma code_high_not_solid (x : ascii) (n : nat) :
  (code x =? n) = true -> 128 <= n -> solid x = false.
Proof.
  intros Hx Hn. apply Nat.eqb_eq in Hx. unfold solid.
  replace (code x <? 128) with false by (symmetry; apply Nat.ltb_ge; lia).
  apply andb_false_r.
Qed.

Lemma code_ge_not_solid (x : ascii) :
  (128 <=? code x) = true -> solid x = false.
Proof.
  intros Hx. apply Nat.leb_le in Hx. unfold solid.
  replace (code x <? 128) with false by (symmetry; apply Nat.ltb_ge; lia).
  apply andb_false_r.
Qed.

Ltac high_byte := eapply code_high_not_solid; [eassumption|lia].

Ltac nat_case n k := destruct (Nat.eqb_spec n k) as [->|?].

Ltac not_solid :=
  repeat split;
  first [ apply andb_false_r
        | match goal with
          | H : 128 <= ?n |- _ =>
            replace (n <? 128) with false by (symmetry; apply Nat.ltb_ge; exact H);
            apply andb_false_r
          end ].

(** The bytes of a two-byte or three-byte white-space rune are not solid. *)
Lemma spaceWidth_two (c d : ascii) :
  asciiSpace c = false -> spaceWidth [c; d] = 2 ->
  solid c = false /\ solid d = false.
Proof.
  intros Hc. unfold spaceWidth, solid. rewrite Hc.
  generalize (code c) (code d). intros n1 n2.
  nat_case n1 194; simpl; [|discriminate].
  nat_case n2 133; simpl; [intros _; not_solid|].
  nat_case n2 160; simpl; [intros _; not_solid|discriminate].
Qed.

Lemma spaceWidth_three (c d e : ascii) :
  asciiSpace c = false -> spaceWidth [c; d; e] = 3 ->
  solid c = false /\ solid d = false /\ solid e = false.
Proof.
  intros Hc. unfold spaceWidth, solid. rewrite Hc.
  generalize (code c) (code d) (code e). intros n1 n2 n3.
  destruct ((n1 =? 194) && ((n2 =? 133) || (n2 =? 160))); [discriminate|].
  destruct (Nat.leb_spec 128 n3) as [Hge|Hlt].
  - nat_case n1 225; simpl.
    { nat_case n2 154; simpl; [|discriminate].
      nat_case n3 128; simpl; [intros _; not_solid|discriminate]. }
    nat_case n1 226; simpl.
    { nat_case n2 128; simpl.
      - intros _. not_solid.
      - nat_case n2 129; simpl; [|discriminate].
        nat_case n3 159; simpl; [intros _; not_solid|discriminate]. }
    nat_case n1 227; simpl; [|discriminate].
    nat_case n2 128; simpl; [|discriminate].
    nat_case n3 128; simpl; [intros _; not_solid|discriminate].
  - nat_case n3 128; [lia|]. nat_case n3 168; [lia|]. nat_case n3 169; [lia|].
    nat_case n3 175; [lia|]. nat_case n3 159; [lia|].
    rewrite !andb_false_r. simpl. discriminate.
Qed.

(** The bytes of a white-space rune, read from the end, are not solid. *)
Lemma spaceWidthRev_bytes (r : gostring) (i : nat) (c : ascii) :
  i < spaceWidthRev r -> nth_error r i = Some c -> solid c = false.
Proof.
  unfold spaceWidthRev.
  destruct r as [|e r]; [simpl; lia|].
  destruct (asciiSpace e) eqn:Ee.
  { intros Hi. assert (i = 0) by lia. subst i. simpl. intros [= <-].
    unfold solid. now rewrite Ee. }
  destruct r as [|d r]; [simpl; lia|].
  destruct (spaceWidth [d; e] =? 2) eqn:E2.
  { apply Nat.eqb_eq in E2.
    destruct (asciiSpace d) eqn:Ed.
    { unfold spaceWidth in E2. rewrite Ed in E2. discriminate. }
    destruct (spaceWidth_two d e Ed E2) as [H1 H2].
    intros Hi H.
    destruct i as [|[|i]]; [| |lia]; simpl in H; injection H as <-; assumption. }
  destruct r as [|c0 r]; [simpl; lia|].
  destruct (spaceWidth [c0; d; e] =? 3) eqn:E3; [|simpl; lia].
  apply Nat.eqb_eq in E3.
  destruct (asciiSpace c0) eqn:Ec.
  { unfold spaceWidth in E3. rewrite Ec in E3. discriminate. }
  destruct (spaceWidth_three c0 d e Ec E3) as (H1 & H2 & H3).
  intros Hi H.
  destruct i as [|[|[|i]]]; [| | |lia]; simpl in H; injection H as <-; assumption.
Qed.

Lemma spaceWidthRev_before_solid (l q : gostring) (b : ascii) :
  solid b = true -> spaceWidthRev (l ++ b :: q) <= length l.
Proof.
  intros Hb.
  destruct (le_lt_dec (spaceWidthRev (l ++ b :: q)) (length l)) as [H|H]; [exact H|].
  assert (E : nth_error (l ++ b :: q) (length l) = Some b)
    by now rewrite nth_error_app2, Nat.sub_diag by lia.
  rewrite (spaceWidthRev_bytes _ _ _ H E) in Hb. discriminate.
Qed.

Lemma trimWith_before_solid (b : ascii) (q : gostring) :
  solid b = true ->
  forall fuel l, exists j,
      j <= length l /\
      trimWith spaceWidthRev fuel (l ++ b :: q) = skipn j l ++ b :: q.
Proof.
  intros Hb. induction fuel as [|fuel IH]; intros l.
  - exists 0. split; [lia|reflexivity].
  - pose proof (spaceWidthRev_before_solid l q b Hb) as Hw.
    cbn [trimWith].
    destruct (spaceWidthRev (l ++ b :: q)) as [|w] eqn:W.
    + exists 0. split; [lia|reflexivity].
    + rewrite skipn_app.
      replace (S w - length l) with 0 by lia.
      change (skipn 0 (b :: q)) with (b :: q).
      destruct (IH (skipn (S w) l)) as (j & Hj & E).
      exists (S w + j). rewrite length_skipn in Hj. split; [lia|].
      rewrite E, skipn_skipn. do 2 f_equal. lia.
Qed.

(** Trimming a text that starts and ends with a solid byte, followed by
    anything, keeps the text and a prefix of what follows. *)
Lemma TrimSpace_solid_prefix (first last : ascii) (mid rest : gostring) :
  solid first = true -> solid last = true ->
  exists k,
    TrimSpace ((first :: mid ++ [last]) ++ rest)
    = (first :: mid ++ [last]) ++ firstn k rest.
Proof.
  intros Hf Hl. unfold TrimSpace.
  change ((first :: mid ++ [last]) ++ rest) with (first :: (mid ++ [last]) ++ rest).
  rewrite (TrimLeftSpace_solid first _ Hf). unfold TrimRightSpace.
  set (s := first :: (mid ++ [last]) ++ rest).
  assert (Hrev : rev s = rev rest ++ last :: rev (first :: mid)).
  { unfold s. change (first :: (mid ++ [last]) ++ rest)
      with (((first :: mid) ++ [last]) ++ rest).
    rewrite !rev_app_distr. reflexivity. }
  rewrite Hrev.
  destruct (trimWith_before_solid last (rev (first :: mid)) Hl (length s) (rev rest))
    as (j & Hj & E).
  rewrite E. exists (length rest - j).
  rewrite rev_app_distr.
  change (rev (last :: rev (first :: mid))) with (rev (rev (first :: mid)) ++ [last]).
  rewrite rev_involutive, skipn_rev, rev_involutive.
  reflexivity.
Qed.

(* ================================================================== *)
(** ** strconv.ParseFloat stops at a slash *)
(* ================================================================== *)

Lemma digit_facts (c : ascii) :
  isDigit c = true ->
  Ascii.eqb c "+" = false /\ Ascii.eqb c "-" = false /\
  Ascii.eqb c "_" = false /\ Ascii.eqb c "." = false /\
  Ascii.eqb c "/" = false /\ Ascii.eqb (lower c) "x" = false /\
  special (c :: []) = None.
Proof. intros H. digit_cases H; repeat split. Qed.

Lemma special_digit (c : ascii) (r : gostring) : isDigit c = true -> special (c :: r) = None.
Proof. intros H. digit_cases H; reflexivity. Qed.

Lemma hexPrefix_digits_slash (num rest : gostring) :
  forallb isDigit num = true -> hexPrefix (num ++ "/"%char :: rest) = false.
Proof.
  destruct num as [|d [|d2 num]]; simpl.
  - intros _. now destruct rest as [|x [|y rest]].
  - intros _. destruct rest; [reflexivity|]. apply andb_false_r.
  - rewrite !andb_true_iff. intros (_ & H2 & _).
    destruct (digit_facts d2 H2) as (_ & _ & _ & _ & _ & Hx & _).
    rewrite Hx. destruct (num ++ "/"%char :: rest); [reflexivity|apply andb_false_r].
Qed.

(** The mantissa loop reads a run of digits and stops at the slash. *)
Lemma mantLoop_digits_slash (num rest : gostring) :
  forallb isDigit num = true ->
  forall st, exists st',
      mantLoop false (num ++ "/"%char :: rest) st = (st', "/"%char :: rest) /\
      underscores st' = underscores st /\
      (sawdigits st = true \/ num <> [] -> sawdigits st' = true).
Proof.
  induction num as [|d num IH]; intros Hd st.
  - exists st. repeat split. intros [H|H]; [exact H|contradiction].
  - simpl in Hd. apply andb_true_iff in Hd as [H1 H2].
    destruct (digit_facts d H1) as (_ & _ & Hu & Hdot & _).
    cbn [app mantLoop]. rewrite Hu, Hdot, H1. cbn [andb].
    destruct (Ascii.eqb d "0" && (nd st =? 0)%Z).
    + destruct (IH H2 {| mantissa := mantissa st; nd := nd st; dp := (dp st - 1)%Z;
                         sawdot := sawdot st; sawdigits := true;
                         underscores := underscores st |}) as (st' & E & U & S).
      exists st'. rewrite E. repeat split; [exact U|]. intros _. apply S. now left.
    + destruct (IH H2 {| mantissa := (mantissa st * 10 + Z.of_nat (code d - 48))%Z;
                         nd := (nd st + 1)%Z; dp := dp st;
                         sawdot := sawdot st; sawdigits := true;
                         underscores := underscores st |}) as (st' & E & U & S).
      exists st'. rewrite E. repeat split; [exact U|]. intros _. apply S. now left.
Qed.

Lemma ParseFloat_digits_slash (num rest : gostring) :
  num <> [] -> forallb isDigit num = true ->
  ParseFloat (num ++ "/"%char :: rest) = None.
Proof.
  intros Hne Hd. unfold ParseFloat.
  destruct num as [|d num]; [contradiction|].
  assert (H1 : isDigit d = true) by (simpl in Hd; now apply andb_true_iff in Hd).
  change ((d :: num) ++ "/"%char :: rest) with (d :: num ++ "/"%char :: rest).
  rewrite (special_digit d _ H1).
  unfold readFloat.
  destruct (digit_facts d H1) as (Hp & Hm & _).
  rewrite Hp, Hm. cbn [orb].
  change (d :: num ++ "/"%char :: rest) with ((d :: num) ++ "/"%char :: rest).
  rewrite (hexPrefix_digits_slash (d :: num) rest Hd).
  destruct (mantLoop_digits_slash (d :: num) rest Hd mantInit) as (st' & E & U & S).
  rewrite E, S by (right; discriminate).
  cbn [negb]. unfold readExponent, finishFloat.
  change (Ascii.eqb (lower "/") "e") with false. cbv iota. rewrite U. reflexivity.
Qed.

(* ================================================================== *)
(** ** Texts made of digits, dots and slashes *)
(* ================================================================== *)

Definition numChar (c : ascii) : bool :=
  isDigit c || Ascii.eqb c "." || Ascii.eqb c "/".

Lemma numChar_facts (c : ascii) :
  numChar c = true -> solid c = true /\ lowerByte c = c.
Proof.
  unfold numChar. rewrite !orb_true_iff. intros [[H|H]|H].
  - split; [now apply isDigit_solid|now apply lowerByte_digit].
  - apply Ascii.eqb_eq in H. subst. now split.
  - apply Ascii.eqb_eq in H. subst. now split.
Qed.

Lemma ToLower_numChars (p : gostring) : forallb numChar p = true -> ToLower p = p.
Proof.
  induction p as [|c p IH]; simpl; [reflexivity|].
  rewrite andb_true_iff. intros [H1 H2].
  destruct (numChar_facts c H1) as [_ ->]. now rewrite (IH H2).
Qed.

Lemma forallb_digits_numChars (ds : gostring) :
  forallb isDigit ds = true -> forallb numChar ds = true.
Proof.
  induction ds as [|c ds IH]; simpl; [reflexivity|].
  rewrite !andb_true_iff. intros [H1 H2]. split; [|now apply IH].
  unfold numChar. now rewrite H1.
Qed.

(** Trimming keeps a text of such bytes and a prefix of what follows. *)
Lemma TrimSpace_numChars (p rest : gostring) :
  p <> [] -> forallb numChar p = true ->
  exists k, TrimSpace (p ++ rest) = p ++ firstn k rest.
Proof.
  intros Hne Hall.
  destruct p as [|first p']; [contradiction|].
  assert (Hf : solid first = true).
  { simpl in Hall. apply andb_true_iff in Hall as [H _].
    now destruct (numChar_facts first H). }
  destruct p' as [|c p''].
  - (* one byte: it is both ends *)
    unfold TrimSpace. change ([first] ++ rest) with (first :: rest).
    rewrite (TrimLeftSpace_solid first rest Hf). unfold TrimRightSpace.
    assert (Hrev : rev (first :: rest) = rev rest ++ first :: []) by reflexivity.
    rewrite Hrev.
    destruct (trimWith_before_solid first [] Hf (length (first :: rest)) (rev rest))
      as (j & Hj & E).
    rewrite E. exists (length rest - j).
    rewrite rev_app_distr. simpl rev at 1.
    now rewrite skipn_rev, rev_involutive.
  - destruct (exists_last (l := c :: p'') ltac:(discriminate)) as (mid & last & E).
    rewrite E in *.
    assert (Hl : solid last = true).
    { simpl in Hall. apply andb_true_iff in Hall as [_ H].
      rewrite forallb_app in H. apply andb_true_iff in H as [_ H].
      simpl in H. apply andb_true_iff in H as [H _].
      now destruct (numChar_facts last H). }
    exact (TrimSpace_solid_prefix first last mid rest Hf Hl).
Qed.

Lemma noLeadingDigit_firstn (k : nat) (s : gostring) :
  noLeadingDigit s = true -> noLeadingDigit (firstn k s) = true.
Proof. destruct k, s; simpl; auto. Qed.

Lemma noLeadingDigit_ToLower (s : gostring) :
  noLeadingDigit (ToLower s) = noLeadingDigit s.
Proof. destruct s as [|c s]; simpl; [reflexivity|]. now rewrite isDigit_lowerByte. Qed.

Lemma span_digits_stop (ds tail : gostring) :
  forallb isDigit ds = true -> noLeadingDigit tail = true ->
  span isDigit (ds ++ tail) = (ds, tail).
Proof.
  intros Hds Ht. apply span_digits; [exact Hds|].
  destruct tail as [|c t]; [exact I|]. simpl in Ht. now apply negb_true_iff in Ht.
Qed.

(** No key of the word table starts with a digit or a dot. *)
Lemma lookup_numChar_start (c : ascii) (t : gostring) :
  numChar c = true -> lookup wordNumbers (c :: t) = None.
Proof.
  unfold numChar. rewrite !orb_true_iff. intros [[H|H]|H].
  - digit_cases H; reflexivity.
  - apply Ascii.eqb_eq in H. subst. reflexivity.
  - apply Ascii.eqb_eq in H. subst. reflexivity.
Qed.

(* ================================================================== *)
(** ** extractNumberFromText on fractions and leading numbers *)
(* ================================================================== *)

Lemma fractionRe_fraction (num den rest : gostring) :
  num <> [] -> forallb isDigit num = true ->
  den <> [] -> forallb isDigit den = true ->
  noLeadingDigit rest = true ->
  fractionRe (num ++ "/"%char :: den ++ rest) = Some (num, den).
Proof.
  intros Hn Hnd Hd Hdd Hr. unfold fractionRe.
  rewrite (span_digits_stop num ("/"%char :: den ++ rest) Hnd eq_refl).
  destruct num as [|n0 num]; [contradiction|]. cbn [Ascii.eqb].
  change (Ascii.eqb "/" "/") with true. cbv iota.
  rewrite (span_digits_stop den rest Hdd Hr).
  now destruct den.
Qed.

Lemma leadingNumberRe_digits_slash (num tail : gostring) :
  num <> [] -> forallb isDigit num = true ->
  leadingNumberRe (num ++ "/"%char :: tail) = Some num.
Proof.
  intros Hn Hnd. unfold leadingNumberRe.
  rewrite (span_digits_stop num ("/"%char :: tail) Hnd eq_refl).
  now destruct num.
Qed.

(** On a text that starts with a fraction, once trimmed and lower-cased. *)
Lemma extractNumberFromText_fraction (text num den rest : gostring) (n d : float64) :
  TrimSpace (ToLower text) = num ++ "/"%char :: den ++ rest ->
  num <> [] -> forallb isDigit num = true ->
  den <> [] -> forallb isDigit den = true ->
  noLeadingDigit rest = true ->
  ParseFloat num = Some n -> ParseFloat den = Some d ->
  extractNumberFromText text = if ne d zero then div n d else n.
Proof.
  intros Ht Hn Hnd Hd Hdd Hr Pn Pd. unfold extractNumberFromText. rewrite Ht.
  destruct num as [|n0 num'] eqn:En; [contradiction|]. rewrite <- En in *.
  assert (Hl : lookup wordNumbers (num ++ "/"%char :: den ++ rest) = None).
  { rewrite En. apply lookup_numChar_start. unfold numChar.
    rewrite En in Hnd. simpl in Hnd. apply andb_true_iff in Hnd as [-> _]. reflexivity. }
  rewrite Hl, (fractionRe_fraction num den rest Hn Hnd Hd Hdd Hr), Pn, Pd.
  now rewrite (leadingNumberRe_digits_slash num (den ++ rest) Hn Hnd), Pn.
Qed.

(** The shape of a number token. *)
Lemma spec_isNumberToken_shape (lead : gostring) :
  spec_isNumberToken lead = true ->
  exists ds r,
    lead = ds ++ r /\ forallb isDigit ds = true /\
    ((ds <> [] /\ r = []) \/
     (ds <> [] /\ exists fs, r = "."%char :: fs /\ forallb isDigit fs = true) \/
     (ds = [] /\ exists f fs, r = "."%char :: f :: fs /\ forallb isDigit (f :: fs) = true)).
Proof.
  unfold spec_isNumberToken. intros H.
  pose proof (span_app isDigit lead) as E.
  assert (Hds : forallb isDigit (fst (span isDigit lead)) = true).
  { clear. induction lead as [|c l IH]; simpl; [reflexivity|].
    destruct (isDigit c) eqn:D; [|reflexivity].
    destruct (span isDigit l); simpl in *. now rewrite D. }
  destruct (span isDigit lead) as [ds r]. simpl in E, Hds.
  exists ds, r. split; [exact E|]. split; [exact Hds|].
  destruct ds as [|d0 ds].
  - right. right. split; [reflexivity|].
    destruct r as [|dot [|f fs]]; try discriminate.
    apply andb_true_iff in H as [H1 H2]. apply Ascii.eqb_eq in H1. subst dot.
    now exists f, fs.
  - destruct r as [|dot fs].
    + left. split; [discriminate|reflexivity].
    + right. left. split; [discriminate|].
      apply andb_true_iff in H as [H1 H2]. apply Ascii.eqb_eq in H1. subst dot.
      now exists fs.
Qed.

Lemma spec_isNumberToken_numChars (lead : gostring) :
  spec_isNumberToken lead = true -> lead <> [] /\ forallb numChar lead = true.
Proof.
  intros H. destruct (spec_isNumberToken_shape lead H) as (ds & r & -> & Hds & Hc).
  pose proof (forallb_digits_numChars ds Hds) as Hn.
  rewrite forallb_app, Hn.
  destruct Hc as [[Hne ->]|[[Hne (fs & -> & Hfs)]|[-> (f & fs & -> & Hfs)]]].
  - split; [|reflexivity]. now rewrite app_nil_r.
  - split; [destruct ds; [contradiction|discriminate]|].
    cbn [forallb andb]. change (numChar ".") with true.
    now rewrite (forallb_digits_numChars fs Hfs).
  - split; [discriminate|].
    cbn [forallb andb]. change (numChar ".") with true.
    exact (forallb_digits_numChars (f :: fs) Hfs).
Qed.

(** What follows the token: nothing, or a byte that is no digit, dot or
    slash. *)
Definition plainTail (tail : gostring) : bool :=
  match tail with
  | [] => true
  | c :: _ => negb (isDigit c) && negb (Ascii.eqb c ".") && negb (Ascii.eqb c "/")
  end.

Lemma plainTail_noLeadingDigit (tail : gostring) :
  plainTail tail = true -> noLeadingDigit tail = true.
Proof.
  destruct tail as [|c t]; simpl; [reflexivity|].
  rewrite !andb_true_iff. now intros [[H _] _].
Qed.

Lemma leadingNumberRe_token (lead tail : gostring) :
  spec_isNumberToken lead = true -> plainTail tail = true ->
  leadingNumberRe (lead ++ tail) = Some lead /\ fractionRe (lead ++ tail) = None.
Proof.
  intros H Ht. pose proof (plainTail_noLeadingDigit tail Ht) as Hnd.
  destruct (spec_isNumberToken_shape lead H) as (ds & r & -> & Hds & Hc).
  unfold leadingNumberRe, fractionRe.
  destruct Hc as [[Hne ->]|[[Hne (fs & -> & Hfs)]|[-> (f & fs & -> & Hfs)]]].
  - rewrite app_nil_r, (span_digits_stop ds tail Hds Hnd).
    destruct ds as [|d0 ds]; [contradiction|].
    destruct tail as [|c t]; [now split|].
    simpl in Ht. rewrite !andb_true_iff, !negb_true_iff in Ht.
    destruct Ht as [[_ Hdot] Hsl]. now rewrite Hdot, Hsl.
  - rewrite <- app_assoc.
    change (("."%char :: fs) ++ tail) with ("."%char :: fs ++ tail).
    rewrite (span_digits_stop ds ("."%char :: fs ++ tail) Hds eq_refl).
    destruct ds as [|d0 ds]; [contradiction|].
    change (Ascii.eqb "." ".") with true. change (Ascii.eqb "." "/") with false.
    cbv iota. rewrite (span_digits_stop fs tail Hfs Hnd). now split.
  - change ([] ++ "."%char :: f :: fs) with ("."%char :: f :: fs).
    change (("."%char :: f :: fs) ++ tail) with ("."%char :: (f :: fs) ++ tail).
    change (span isDigit ("."%char :: (f :: fs) ++ tail))
      with (@nil ascii, "."%char :: (f :: fs) ++ tail).
    change (Ascii.eqb "." ".") with true. cbv iota.
    rewrite (span_digits_stop (f :: fs) tail Hfs Hnd). now split.
Qed.

(** On a text that starts with a number token, once trimmed and
    lower-cased. *)
Lemma extractNumberFromText_token (text lead tail : gostring) (x : float64) :
  TrimSpace (ToLower text) = lead ++ tail ->
  spec_isNumberToken lead = true -> plainTail tail = true ->
  ParseFloat lead = Some x ->
  extractNumberFromText text = x.
Proof.
  intros Ht H Htail Px. unfold extractNumberFromText. rewrite Ht.
  destruct (leadingNumberRe_token lead tail H Htail) as [L F].
  destruct (spec_isNumberToken_numChars lead H) as [Hne Hnc].
  assert (Hl : lookup wordNumbers (lead ++ tail) = None).
  { destruct lead as [|c lead]; [contradiction|].
    apply lookup_numChar_start. simpl in Hnc. now apply andb_true_iff in Hnc as [-> _]. }
  now rewrite Hl, F, L, Px.
Qed.

(* ================================================================== *)
(** ** parseNumberField on texts *)
(* ================================================================== *)

Lemma eqs_cons_nil (c : ascii) (s : gostring) : eqs (c :: s) [] = false.
Proof. reflexivity. Qed.

(** The text that extractNumberFromText works on, for a text [p ++ rest]
    whose head [p] is made of digits, dots and slashes. *)
Lemma normalized_numChars (p rest : gostring) :
  p <> [] -> forallb numChar p = true ->
  exists r1 r3,
    TrimSpace (p ++ rest) = p ++ r1 /\
    TrimSpace (ToLower (ToLower (TrimSpace (p ++ rest)))) = p ++ r3 /\
    (r1 = [] -> r3 = []) /\
    (forall q : gostring -> bool,
        (forall s k, q s = true -> q (firstn k s) = true) ->
        (forall s, q s = true -> q (ToLower s) = true) ->
        q rest = true -> q r1 = true /\ q r3 = true).
Proof.
  intros Hne Hnc.
  destruct (TrimSpace_numChars p rest Hne Hnc) as (k & E1).
  rewrite E1, !ToLower_app, !(ToLower_numChars p Hnc).
  destruct (TrimSpace_numChars p (ToLower (ToLower (firstn k rest))) Hne Hnc) as (k2 & E2).
  rewrite E2.
  exists (firstn k rest), (firstn k2 (ToLower (ToLower (firstn k rest)))).
  repeat split.
  - intros ->. now destruct k2.
  - now apply H.
  - apply H, H0, H0, H. assumption.
Qed.

Lemma plainTail_firstn (s : gostring) (k : nat) :
  plainTail s = true -> plainTail (firstn k s) = true.
Proof. destruct k, s; simpl; auto. Qed.

Lemma plainTail_ToLower (s : gostring) :
  plainTail s = true -> plainTail (ToLower s) = true.
Proof.
  destruct s as [|c s]; simpl; [reflexivity|].
  now rewrite isDigit_lowerByte, lowerByte_eqb_dot, lowerByte_eqb_slash.
Qed.

Lemma noLeadingDigit_ToLower_true (s : gostring) :
  noLeadingDigit s = true -> noLeadingDigit (ToLower s) = true.
Proof. now rewrite noLeadingDigit_ToLower. Qed.

Lemma parseNumberField_fraction (fieldName num den rest : gostring) (n d : float64) :
  num <> [] -> forallb isDigit num = true ->
  den <> [] -> forallb isDigit den = true ->
  noLeadingDigit rest = true ->
  ParseFloat num = Some n -> ParseFloat den = Some d ->
  gt (if ne d zero then div n d else n) zero = true ->
  parseNumberField (AString (num ++ "/"%char :: den ++ rest)) fieldName
  = Ok (if ne d zero then div n d else n).
Proof.
  intros Hn Hnd Hd Hdd Hr Pn Pd Hpos.
  set (p := num ++ "/"%char :: den).
  assert (Hp : num ++ "/"%char :: den ++ rest = p ++ rest)
    by (unfold p; now rewrite <- app_assoc).
  assert (Hpne : p <> []) by (unfold p; destruct num; discriminate).
  assert (Hpnc : forallb numChar p = true).
  { unfold p. rewrite forallb_app, (forallb_digits_numChars num Hnd).
    cbn [forallb andb]. change (numChar "/") with true.
    exact (forallb_digits_numChars den Hdd). }
  destruct (normalized_numChars p rest Hpne Hpnc) as (r1 & r3 & E1 & E3 & _ & Hq).
  destruct (Hq noLeadingDigit (fun s k => noLeadingDigit_firstn k s)
               noLeadingDigit_ToLower_true Hr) as [Q1 Q3].
  unfold parseNumberField. rewrite Hp, E1.
  assert (Ep : forall r, p ++ r = num ++ "/"%char :: den ++ r)
    by (intros r; unfold p; now rewrite <- app_assoc).
  destruct p as [|c0 p0] eqn:P0; [contradiction|].
  change ((c0 :: p0) ++ r1) with (c0 :: p0 ++ r1). rewrite eqs_cons_nil.
  change (c0 :: p0 ++ r1) with ((c0 :: p0) ++ r1).
  rewrite (Ep r1), (ParseFloat_digits_slash num (den ++ r1) Hn Hnd).
  rewrite <- (Ep r1), <- E1.
  rewrite (extractNumberFromText_fraction _ num den r3 n d); [now rewrite Hpos| |auto..].
  rewrite E3. apply Ep.
Qed.

Lemma parseNumberField_token (fieldName lead tail : gostring) (x : float64) :
  spec_isNumberToken lead = true -> plainTail tail = true ->
  ParseFloat (TrimSpace (lead ++ tail)) = None ->
  ParseFloat lead = Some x -> gt x zero = true ->
  parseNumberField (AString (lead ++ tail)) fieldName = Ok x.
Proof.
  intros H Htail Hnone Px Hpos.
  destruct (spec_isNumberToken_numChars lead H) as [Hne Hnc].
  destruct (normalized_numChars lead tail Hne Hnc) as (r1 & r3 & E1 & E3 & _ & Hq).
  destruct (Hq plainTail plainTail_firstn plainTail_ToLower Htail) as [Q1 Q3].
  unfold parseNumberField. rewrite Hnone, E1.
  destruct lead as [|c0 l0] eqn:L0; [contradiction|].
  change ((c0 :: l0) ++ r1) with (c0 :: l0 ++ r1). rewrite eqs_cons_nil.
  change (c0 :: l0 ++ r1) with ((c0 :: l0) ++ r1). rewrite <- E1.
  rewrite (extractNumberFromText_token _ (c0 :: l0) r3 x E3 H Q3 Px).
  now rewrite Hpos.
Qed.

Lemma parseNumberField_empty (fieldName s : gostring) :
  TrimSpace s = [] -> parseNumberField (AString s) fieldName = Err (NumEmpty fieldName).
Proof. intros H. unfold parseNumberField. now rewrite H. Qed.

Lemma HasPrefix_app_self (p s : gostring) : HasPrefix (p ++ s) p = true.
Proof.
  induction p as [|c p IH]; simpl; [now destruct s|]. now rewrite Ascii.eqb_refl.
Qed.

(* ================================================================== *)
(** ** Claims C5 and C6 *)
(* ================================================================== *)

(** C5, on the code.  For every word of the table whose value is above 0,
    parseNumberField applied to the word returns the value of the table.
    The word zero is in the table with the value 0, and parseNumberField
    rejects it: extractNumberFromText returns 0 for it, which the caller
    takes for no number found. *)
Theorem parseNumberField_word_table :
  forall fieldName : gostring,
    Forall (fun kv : gostring * float64 =>
              parseNumberField (AString (fst kv)) fieldName
              = if gt (snd kv) zero then Ok (snd kv)
                else Err (NumNotNumber fieldName (fst kv)))
           wordNumbers /\
    lookup wordNumbers (str "zero") = Some (ofZ 0) /\
    extractNumberFromText (str "zero") = ofZ 0 /\
    parseNumberField (AString (str "zero")) fieldName
    = Err (NumNotNumber fieldName (str "zero")).
Proof.
  intros fieldName. split; [|repeat split; vm_compute; reflexivity].
  unfold wordNumbers. repeat constructor; vm_compute; reflexivity.
Qed.

(** C6 (amended).  For a text that starts with digits, a slash and
    digits, whose two runs of digits parse to n and d: when d is not 0 and
    n / d is above 0, parseNumberField returns n / d, the fraction being
    tried before the leading number; when d is 0 the fraction is passed
    over and the leading number n is returned, if above 0.  For a text that
    is not a float as a whole and starts with a decimal or an integer
    followed by a byte that is no digit, dot or slash, parseNumberField
    returns the value of that leading number, if above 0, and ignores what
    follows.  A text that is empty once trimmed, and nil, fail with an error
    whose text starts with the name of the field.  So 1/2 gives 0.5 and
    2 large gives 2. *)
Theorem parseNumberField_fraction_before_leading_number :
  forall fieldName : gostring,
    (forall num den rest n d,
        num <> [] -> forallb isDigit num = true ->
        den <> [] -> forallb isDigit den = true ->
        noLeadingDigit rest = true ->
        ParseFloat num = Some n -> ParseFloat den = Some d ->
        (ne d zero = true -> gt (div n d) zero = true ->
         parseNumberField (AString (num ++ "/"%char :: den ++ rest)) fieldName
         = Ok (div n d)) /\
        (ne d zero = false -> gt n zero = true ->
         parseNumberField (AString (num ++ "/"%char :: den ++ rest)) fieldName
         = Ok n)) /\
    (forall lead tail x,
        spec_isNumberToken lead = true -> plainTail tail = true ->
        ParseFloat (TrimSpace (lead ++ tail)) = None ->
        ParseFloat lead = Some x -> gt x zero = true ->
        parseNumberField (AString (lead ++ tail)) fieldName = Ok x) /\
    (forall s, TrimSpace s = [] ->
               parseNumberField (AString s) fieldName = Err (NumEmpty fieldName)) /\
    parseNumberField ANil fieldName = Err (NumRequired fieldName) /\
    HasPrefix (Error (NumEmpty fieldName)) fieldName = true /\
    HasPrefix (Error (NumRequired fieldName)) fieldName = true /\
    parseNumberField (AString (str "1/2")) fieldName = Ok (ofDecimal false 5 (-1)) /\
    parseNumberField (AString (str "2 large")) fieldName = Ok (ofZ 2).
Proof.
  intros fieldName. split; [|split; [|split; [|split; [|split; [|split; [|split]]]]]].
  - intros num den rest n d Hn Hnd Hd Hdd Hr Pn Pd. split.
    + intros Hz Hpos.
      pose proof (parseNumberField_fraction fieldName num den rest n d
                    Hn Hnd Hd Hdd Hr Pn Pd) as H.
      rewrite Hz in H. now apply H.
    + intros Hz Hpos.
      pose proof (parseNumberField_fraction fieldName num den rest n d
                    Hn Hnd Hd Hdd Hr Pn Pd) as H.
      rewrite Hz in H. now apply H.
  - intros lead tail x. apply parseNumberField_token.
  - intros s. apply parseNumberField_empty.
  - reflexivity.
  - apply HasPrefix_app_self.
  - apply HasPrefix_app_self.
  - vm_compute. reflexivity.
  - vm_compute. reflexivity.
Qed.

Lemma parseNumberField_fraction_before_leading_number_witness :
  parseNumberField (AString (str "3/4 cup")) (str "quantity") = Ok (ofDecimal false 75 (-2)) /\
  parseNumberField (AString (str "1.5 cups")) (str "quantity") = Ok (ofDecimal false 15 (-1)).
Proof.
  destruct (parseNumberField_fraction_before_leading_number (str "quantity"))
    as (Hfrac & Htok & _).
  split.
  - apply (Hfrac (str "3") (str "4") (str " cup") (ofZ 3) (ofZ 4));
      try reflexivity; try discriminate.
  - apply (Htok (str "1.5") (str " cups") (ofDecimal false 15 (-1))); reflexivity.
Defined.

(** C6 as stated fails: the text 1/0 starts with a fraction, numerator
    divided by denominator is the float +Inf, and parseNumberField returns
    1, the leading number. *)
Lemma fraction_with_zero_denominator_gives_numerator :
  fractionRe (str "1/0") = Some (str "1", str "0") /\
  ParseFloat (str "1") = Some (ofZ 1) /\
  ParseFloat (str "0") = Some zero /\
  div (ofZ 1) zero = S754_infinity false /\
  parseNumberField (AString (str "1/0")) (str "quantity") = Ok (ofZ 1).
Proof. repeat split. Qed.

(** The test table of the package, TestNumberParsing. *)
Example parseNumberField_test_table :
  parseNumberField (AInt 2) (str "test") = Ok (ofZ 2) /\
  parseNumberField (AFloat64 (ofDecimal false 25 (-1))) (str "test")
    = Ok (ofDecimal false 25 (-1)) /\
  parseNumberField (AString (str "2")) (str "test") = Ok (ofZ 2) /\
  parseNumberField (AString (str "2.5")) (str "test") = Ok (ofDecimal false 25 (-1)) /\
  parseNumberField (AString (str "two")) (str "test") = Ok (ofZ 2) /\
  parseNumberField (AString (str "half")) (str "test") = Ok (ofDecimal false 5 (-1)) /\
  parseNumberField (AString (str "1/2")) (str "test") = Ok (ofDecimal false 5 (-1)) /\
  parseNumberField (AString (str "2 large")) (str "test") = Ok (ofZ 2) /\
  parseNumberField (AString (str "1.5 cups")) (str "test") = Ok (ofDecimal false 15 (-1)) /\
  parseNumberField (AString []) (str "test") = Err (NumEmpty (str "test")) /\
  parseNumberField ANil (str "test") = Err (NumRequired (str "test")).
Proof. repeat split; vm_compute; reflexivity. Qed.

(* ================================================================== *)
(** ** The conversation loop *)
(* ================================================================== *)

Import Agent LoopSpec.

Lemma executesOnlyModelCalls_app (tr1 tr2 : list event) :
  forall pending,
    executesOnlyModelCalls pending tr1 ->
    executesOnlyModelCalls [] tr2 ->
    executesOnlyModelCalls pending (tr1 ++ tr2).
Proof.
  induction tr1 as [|e tr1 IH]; intros pending H1 H2; simpl in *.
  - now subst.
  - destruct e as [line|conv [response|err]|tc res].
    + destruct H1 as [-> H1]. split; [reflexivity|now apply IH].
    + destruct H1 as [-> H1]. split; [reflexivity|now apply IH].
    + destruct H1 as [-> H1]. split; [reflexivity|now apply IH].
    + destruct pending as [|p ps]; [contradiction|].
      destruct H1 as [-> H1]. split; [reflexivity|now apply IH].
Qed.

Section LoopFacts.

Variable World : Type.
Variable GetInput : World -> option gostring * World.
Variable GenerateResponse : list Message -> World -> (Response + gostring) * World.
Variable GetTool : gostring -> option (gostring -> World -> (gostring + gostring) * World).

(** The loop over the calls of a response executes each call once, in
    order, and collects one result per call. *)
Lemma executeAll_spec (toolCalls : list ToolCall) :
  forall acc w results evs w',
    executeAll GetTool toolCalls acc w = (results, evs, w') ->
    executesOnlyModelCalls toolCalls evs /\
    results = acc ++ executedResults evs /\
    length (executedResults evs) = length toolCalls.
Proof.
  induction toolCalls as [|tc rest IH]; intros acc w results evs w' H; simpl in H.
  - injection H as <- <- <-. simpl. now rewrite app_nil_r.
  - destruct (executeTool GetTool tc w) as [result w1].
    destruct (executeAll GetTool rest (acc ++ [result]) w1) as [[rs es] w2] eqn:E.
    injection H as <- <- <-.
    destruct (IH _ _ _ _ _ E) as (H1 & H2 & H3).
    simpl. repeat split; [exact H1| |now rewrite H3].
    rewrite H2, <- app_assoc. reflexivity.
Qed.

(** Every result becomes a user turn labelled as a tool result, and the
    next pass does not read user input, whatever the results hold. *)
Lemma appendResults_spec (toolResults : list gostring) :
  forall conversation,
    appendResults toolResults conversation false
    = (conversation ++ map toolResultMessage toolResults, false).
Proof.
  induction toolResults as [|r rest IH]; intros conversation; cbn [appendResults map].
  - now rewrite app_nil_r.
  - destruct (Contains r (str "TOOL_CALL:")); rewrite IH, <- app_assoc; reflexivity.
Qed.

(** The conversation on which a pass calls the model. *)
Definition modelConversation (conversation : list Message) (readUserInput : bool)
           (w : World) : option (list Message) :=
  if readUserInput then
    match fst (GetInput w) with
    | Some userInput => Some (conversation ++ [ {| Role := str "user"; Content := userInput |} ])
    | None => None
    end
  else Some conversation.

Lemma iteration_trace (conversation : list Message) (readUserInput : bool) (w : World) :
  executesOnlyModelCalls []
    (snd (fst (iteration GetInput GenerateResponse GetTool conversation readUserInput w))).
Proof.
  unfold iteration.
  destruct readUserInput.
  - destruct (GetInput w) as [[userInput|] w1]; [|simpl; auto].
    destruct (GenerateResponse _ w1) as [[response|err] w2].
    + destruct (executeAll GetTool (ToolCalls response) [] w2) as [[rs es] w3] eqn:E.
      destruct (executeAll_spec _ _ _ _ _ _ E) as (H1 & _ & _).
      destruct (length rs =? 0); [|destruct (appendResults _ _ _)]; simpl; auto.
    + destruct (isRecoverableError err); [destruct (GetInput w2)|]; simpl; auto.
  - destruct (GenerateResponse conversation w) as [[response|err] w2].
    + destruct (executeAll GetTool (ToolCalls response) [] w2) as [[rs es] w3] eqn:E.
      destruct (executeAll_spec _ _ _ _ _ _ E) as (H1 & _ & _).
      destruct (length rs =? 0); [|destruct (appendResults _ _ _)]; simpl; auto.
    + destruct (isRecoverableError err); [destruct (GetInput w2)|]; simpl; auto.
Qed.

Lemma loop_trace (fuel : nat) :
  forall conversation readUserInput w,
    executesOnlyModelCalls []
      (snd (fst (loop GetInput GenerateResponse GetTool fuel conversation readUserInput w))).
Proof.
  induction fuel as [|fuel IH]; intros conversation readUserInput w; simpl; [reflexivity|].
  pose proof (iteration_trace conversation readUserInput w) as Hit.
  destruct (iteration GetInput GenerateResponse GetTool conversation readUserInput w)
    as [[[conv' r'| |err] evs] w1]; simpl in *; try exact Hit.
  specialize (IH conv' r' w1).
  destruct (loop GetInput GenerateResponse GetTool fuel conv' r' w1) as [[o evs'] w2].
  simpl in *. now apply executesOnlyModelCalls_app.
Qed.

(** A pass that executed a tool ends with the results appended after the
    reply of the model, and with no user input to be read next. *)
Lemma iteration_with_results (conversation conversation' : list Message)
      (readUserInput readUserInput' : bool) (w w' : World) (evs : list event) :
  iteration GetInput GenerateResponse GetTool conversation readUserInput w
  = (Continue conversation' readUserInput', evs, w') ->
  executedResults evs <> [] ->
  readUserInput' = false /\
  exists modelConv response,
    modelConversation conversation readUserInput w = Some modelConv /\
    In (EvGenerateResponse modelConv (inl response)) evs /\
    length (executedResults evs) = length (ToolCalls response) /\
    conversation' =
      modelConv ++ {| Role := str "assistant"; Content := RContent response |}
                :: map toolResultMessage (executedResults evs).
Proof.
  unfold iteration, modelConversation.
  assert (Hcore : forall modelConv pre w1,
    executedResults pre = [] ->
    match GenerateResponse modelConv w1 with
    | (inr err, w2) =>
      let evs := pre ++ [EvGenerateResponse modelConv (inr err)] in
      if isRecoverableError err then
        let (ack, w3) := GetInput w2 in
        (Continue modelConv true, evs ++ [EvGetInput ack], w3)
      else (Return (str "LLM error: " ++ err), evs, w2)
    | (inl response, w2) =>
      let evs := pre ++ [EvGenerateResponse modelConv (inl response)] in
      let conversation :=
        modelConv ++ [ {| Role := str "assistant"; Content := RContent response |} ] in
      match executeAll GetTool (ToolCalls response) [] w2 with
      | (toolResults, evs', w3) =>
        if length toolResults =? 0 then (Continue conversation true, evs ++ evs', w3)
        else
          let (conversation, readUserInput) := appendResults toolResults conversation false in
          (Continue conversation readUserInput, evs ++ evs', w3)
      end
    end = (Continue conversation' readUserInput', evs, w') ->
    executedResults evs <> [] ->
    readUserInput' = false /\
    exists response,
      In (EvGenerateResponse modelConv (inl response)) evs /\
      length (executedResults evs) = length (ToolCalls response) /\
      conversation' =
        modelConv ++ {| Role := str "assistant"; Content := RContent response |}
                  :: map toolResultMessage (executedResults evs)).
  { intros modelConv pre w1 Hpre.
    assert (Happ : forall a b, executedResults (a ++ b) = executedResults a ++ executedResults b)
      by (intros a b; unfold executedResults; now rewrite flat_map_app).
    destruct (GenerateResponse modelConv w1) as [[response|err] w2].
    - destruct (executeAll GetTool (ToolCalls response) [] w2) as [[rs es] w3] eqn:E.
      destruct (executeAll_spec _ _ _ _ _ _ E) as (_ & H2 & H3). simpl in H2. subst rs.
      cbv zeta.
      destruct (length (executedResults es) =? 0) eqn:L.
      + intros [= <- <- <- <-]. rewrite !Happ, Hpre. simpl.
        apply Nat.eqb_eq in L. destruct (executedResults es); [contradiction|discriminate].
      + rewrite appendResults_spec. intros [= <- <- <- <-] _.
        rewrite !Happ, Hpre. simpl. split; [reflexivity|].
        exists response. split; [|split].
        * apply in_or_app. left. apply in_or_app. right. now left.
        * exact H3.
        * now rewrite <- app_assoc.
    - cbv zeta. destruct (isRecoverableError err); [|discriminate].
      destruct (GetInput w2) as [ack w3].
      intros [= <- <- <- <-]. rewrite !Happ, Hpre. simpl. contradiction. }
  destruct readUserInput.
  - destruct (GetInput w) as [[userInput|] w1]; simpl fst; [|discriminate].
    intros H Hne.
    destruct (Hcore _ [EvGetInput (Some userInput)] w1 eq_refl H Hne) as (Hr & response & Hx).
    split; [exact Hr|]. eexists; exists response. split; [reflexivity|exact Hx].
  - intros H Hne.
    destruct (Hcore conversation [] w eq_refl H Hne) as (Hr & response & Hx).
    split; [exact Hr|]. eexists; exists response. split; [reflexivity|exact Hx].
Qed.

(** A pass that need not read user input starts by calling the model on
    the conversation as it stands. *)
Lemma iteration_calls_model_first (conversation : list Message) (w : World) :
  startsWithModelCall conversation
    (snd (fst (iteration GetInput GenerateResponse GetTool conversation false w))).
Proof.
  unfold iteration.
  destruct (GenerateResponse conversation w) as [[response|err] w2].
  - destruct (executeAll GetTool (ToolCalls response) [] w2) as [[rs es] w3].
    destruct (length rs =? 0); [|destruct (appendResults _ _ _)]; reflexivity.
  - destruct (isRecoverableError err); [destruct (GetInput w2)|]; reflexivity.
Qed.

(** What [executeTool] hands back when the call cannot be served starts
    with the word Error. *)
Lemma executeTool_failure_text (toolCall : ToolCall) (w : World) :
  match GetTool (LLM.Name toolCall) with
  | None =>
    fst (executeTool GetTool toolCall w)
    = str "Error: tool '" ++ LLM.Name toolCall ++ str "' not found"
  | Some Execute =>
    match fst (Execute (LLM.Input toolCall) w) with
    | inl result => fst (executeTool GetTool toolCall w) = result
    | inr err =>
      fst (executeTool GetTool toolCall w)
      = str "Error executing tool '" ++ LLM.Name toolCall ++ str "': " ++ err
    end
  end.
Proof.
  unfold executeTool.
  destruct (GetTool (LLM.Name toolCall)) as [Execute|]; [|reflexivity].
  destruct (Execute (LLM.Input toolCall) w) as [[result|err] w1]; reflexivity.
Qed.

(** C8.  In the conversation loop of [Run]: (1) in every run, of any
    length and in any world, the executed tool calls are exactly the calls
    of the response the model gave just before, in order, so no call is
    ever executed that was not parsed from a model response; (2) a pass in
    which tools were executed appends, after the reply of the model, one
    user turn per result, in order, whose content is the result behind the
    label of a tool result, and leaves [readUserInput] false, whatever the
    results hold (the directive token included); (3) the pass that follows
    starts by calling the model on that conversation, before any execution. *)
Theorem Run_executes_only_model_calls :
  (forall fuel w,
      executesOnlyModelCalls []
        (snd (fst (Run GetInput GenerateResponse GetTool fuel w)))) /\
  (forall conversation readUserInput w conversation' readUserInput' evs w',
      iteration GetInput GenerateResponse GetTool conversation readUserInput w
      = (Continue conversation' readUserInput', evs, w') ->
      executedResults evs <> [] ->
      readUserInput' = false /\
      (exists modelConv response,
          modelConversation conversation readUserInput w = Some modelConv /\
          In (EvGenerateResponse modelConv (inl response)) evs /\
          length (executedResults evs) = length (ToolCalls response) /\
          conversation' =
            modelConv ++ {| Role := str "assistant"; Content := RContent response |}
                      :: map toolResultMessage (executedResults evs)) /\
      Forall (fun m => Role m = str "user" /\
                       HasPrefix (Content m) (str "Tool result: ") = true)
             (map toolResultMessage (executedResults evs)) /\
      startsWithModelCall conversation'
        (snd (fst (iteration GetInput GenerateResponse GetTool
                             conversation' readUserInput' w')))).
Proof.
  split.
  - intros fuel w. apply loop_trace.
  - intros conversation readUserInput w conversation' readUserInput' evs w' H Hne.
    destruct (iteration_with_results _ _ _ _ _ _ _ H Hne) as (-> & Hx).
    split; [reflexivity|]. split; [exact Hx|]. split.
    + apply Forall_forall. intros m Hm. apply in_map_iff in Hm.
      destruct Hm as (r & <- & _). split; [reflexivity|].
      unfold toolResultMessage. cbn [Content]. apply HasPrefix_app_self.
    + apply iteration_calls_model_first.
Qed.

End LoopFacts.

(** A scripted world: the model asks for the tool [t] once, and the result
    of [t] holds a directive of its own. *)
Definition scriptedCall : ToolCall :=
  {| ID := str "call_0"; LLM.Name := str "t"; Function := str "t"; Input := str "{}" |}.

Definition scriptedModel (conversation : list Message) (w : nat)
  : (Response + gostring) * nat :=
  match w with
  | 0 => (inl {| RContent := str "TOOL_CALL: t({})"; ToolCalls := [scriptedCall] |}, 1)
  | _ => (inl {| RContent := str "done"; ToolCalls := [] |}, w)
  end.

Definition scriptedRegistry (name : gostring)
  : option (gostring -> nat -> (gostring + gostring) * nat) :=
  if eqs name (str "t") then Some (fun _ w => (inl (str "TOOL_CALL: t({})"), w)) else None.

Definition scriptedInput (w : nat) : option gostring * nat :=
  match w with
  | 0 => (Some (str "log it"), w)
  | _ => (None, w)
  end.

(** The directive in the result of [t] is not executed: after the one
    execution the model is called again, answers without calls, and the
    loop goes back to the user. *)
Example directive_in_result_is_not_executed :
  let trace := snd (fst (Run scriptedInput scriptedModel scriptedRegistry 3 0)) in
  executedResults trace = [str "TOOL_CALL: t({})"] /\
  map (fun e => match e with
                | EvGetInput _ => 0 | EvGenerateResponse _ _ => 1 | EvExecute _ _ => 2
                end) trace = [0; 1; 2; 1; 0] /\
  fst (fst (Run scriptedInput scriptedModel scriptedRegistry 3 0)) = Finished.
Proof. vm_compute. repeat split. Qed.
